(** * The BitMEX websocket table mirror ([cryptoexchange/bitmex_ws.py])

    A shallow embedding of the table store kept by [BitMEXWebsocket], of
    the message handler [__on_message] that folds [partial] / [insert] /
    [update] / [delete] events into it, of [findItemByKeys], and of the
    public read methods, followed by the properties of the synchronisation
    protocol.

    Modelling conventions.
    - A row is a Python [dict] with string keys: a [gmap string value].
      Field values are the JSON scalars; [dict.update] is the left-biased
      union of finite maps.
    - A Python [float] is modelled by the rational number it denotes, and
      float arithmetic by exact rational arithmetic (non-finite floats are
      outside the model).  The code computes in doubles: the two agree
      where the double operation is exact, and the numeric properties
      below are stated for such inputs only.  The logarithm of
      [get_instrument] is the exact one; the code truncates the double
      that [math.log10] returns, which is the same integer for a number
      that is clear of the powers of ten.
    - [self.data] and [self.keys] are finite maps indexed by the table
      name, which is [None] when the message carries no ['table'] field.
    - Methods of the object are computations in a state-and-exception
      monad over the table store; a raised exception keeps the mutations
      made before it, as in Python. *)

From Stdlib Require Import ZArith QArith Qround Lqa.
From stdpp Require Import gmap strings list fin_maps pretty.

Local Open Scope Z_scope.

(** ** Python values and their comparison *)

Inductive value :=
  | VNone
  | VBool (b : bool)
  | VInt (n : Z)
  | VFloat (q : Q)
  | VStr (s : string).

Abbreviation row := (gmap string value).

(** The numeric tower: [bool] is a subtype of [int], and [int] compares
    with [float] by value. *)
Definition num_of (v : value) : option Q :=
  match v with
  | VBool b => Some (inject_Z (if b then 1 else 0))
  | VInt n => Some (inject_Z n)
  | VFloat q => Some q
  | VNone | VStr _ => None
  end.

(** [a == b] *)
Definition py_eq (a b : value) : bool :=
  match num_of a, num_of b with
  | Some x, Some y => Qeq_bool x y
  | _, _ =>
      match a, b with
      | VNone, VNone => true
      | VStr s, VStr t => bool_decide (s = t)
      | _, _ => false
      end
  end.

(** [a != b] *)
Definition py_ne (a b : value) : bool := negb (py_eq a b).

(** Truth value of an object, as tested by [if], [not] and [or]. *)
Definition truthy (v : value) : bool :=
  match v with
  | VNone => false
  | VBool b => b
  | VInt n => negb (n =? 0)
  | VFloat q => negb (Qeq_bool q 0)
  | VStr s => negb (bool_decide (s = ""))
  end.

(** [d1 == d2] on dictionaries: the same keys, with equal values. *)
Definition row_eqb (r1 r2 : row) : bool :=
  bool_decide (dom r1 = dom r2)
  && bool_decide (map_Forall (λ k a, from_option (py_eq a) false (r2 !! k) = true) r1).

(** ** Exceptions and results *)

Inductive exn :=
  | KeyError
  | IndexError
  | ValueError
  | TypeError
  | UnknownAction (action : string).

Inductive res (A : Type) :=
  | Ok (a : A)
  | Raise (e : exn).
Arguments Ok {A} a.
Arguments Raise {A} e.

Definition res_bind {A B} (r : res A) (k : A → res B) : res B :=
  match r with
  | Ok a => k a
  | Raise e => Raise e
  end.

(** [d[key]] *)
Definition getitem (d : row) (key : string) : res value :=
  match d !! key with
  | Some v => Ok v
  | None => Raise KeyError
  end.

(** ** [findItemByKeys] *)

(** The inner loop [for key in keys]: every key is inspected, also after a
    mismatch, so a missing field raises [KeyError] wherever it occurs. *)
Fixpoint keys_loop (keys : list string) (item matchData : row) (matched : bool)
  : res bool :=
  match keys with
  | [] => Ok matched
  | key :: keys' =>
      res_bind (getitem item key) (λ a,
      res_bind (getitem matchData key) (λ b,
      keys_loop keys' item matchData (if py_ne a b then false else matched)))
  end.

(** The outer loop [for item in table], started at position [i].  The item
    returned is a reference into the table; it is represented by its
    position together with its contents. *)
Fixpoint find_from (i : nat) (keys : list string) (table : list row)
    (matchData : row) : res (option (nat * row)) :=
  match table with
  | [] => Ok None
  | item :: table' =>
      res_bind (keys_loop keys item matchData true) (λ matched,
      if matched then Ok (Some (i, item))
      else find_from (S i) keys table' matchData)
  end.

Definition findItemByKeys (keys : list string) (table : list row)
    (matchData : row) : res (option (nat * row)) :=
  find_from 0 keys table matchData.

(** [list.remove(x)]: drops the first element equal to [x], and raises
    [ValueError] (here [None]) when there is none. *)
Fixpoint list_remove (x : row) (l : list row) : option (list row) :=
  match l with
  | [] => None
  | y :: l' =>
      if row_eqb y x then Some l'
      else cons y <$> list_remove x l'
  end.

(** ** The table store and its monad *)

(** A table is named by the ['table'] field of the message that first
    mentions it, or by [None] when that field is absent. *)
Abbreviation tname := (option string).

Record store := Store {
  data : gmap tname (list row);      (* self.data *)
  keys : gmap tname (list string)    (* self.keys *)
}.

Definition empty_store : store := Store ∅ ∅.

(** A method body: it reads and writes the store, and either returns or
    raises.  The store that comes with [Raise] holds whatever was written
    before the exception. *)
Definition M (A : Type) : Type := store → store * res A.

Definition ret {A} (a : A) : M A := λ st, (st, Ok a).
Definition raise {A} (e : exn) : M A := λ st, (st, Raise e).
Definition bind {A B} (c : M A) (k : A → M B) : M B :=
  λ st, match c st with
        | (st', Ok a) => k a st'
        | (st', Raise e) => (st', Raise e)
        end.
Definition lift {A} (r : res A) : M A := λ st, (st, r).

Notation "x <~ c ;; k" := (bind c (λ x, k))
  (at level 100, c at next level, right associativity,
   format "'[v' x  <~  c  ;;  '/' k ']'").
Notation "c ;;; k" := (bind c (λ _, k))
  (at level 100, right associativity).

(** [self.data[table]] and [self.keys[table]] as expressions. *)
Definition get_data (table : tname) : M (list row) :=
  λ st, (st, match data st !! table with Some l => Ok l | None => Raise KeyError end).
Definition get_keys (table : tname) : M (list string) :=
  λ st, (st, match keys st !! table with Some l => Ok l | None => Raise KeyError end).

(** Writes to the list object [self.data[table]] and to [self.keys[table]]. *)
Definition set_data (table : tname) (l : list row) : M unit :=
  λ st, (Store (<[table := l]> (data st)) (keys st), Ok tt).
Definition set_keys (table : tname) (ks : list string) : M unit :=
  λ st, (Store (data st) (<[table := ks]> (keys st)), Ok tt).

(** ** Inbound messages *)

(** A decoded message.  Each field is [None] when the JSON object lacks
    it; the field types are those of the wire protocol. *)
Record message := Message {
  m_subscribe : option value;
  m_table : option string;
  m_action : option string;
  m_data : option (list row);
  m_keys : option (list string)
}.

(** [message[field]] *)
Definition field {A} (f : option A) : M A :=
  match f with
  | Some a => ret a
  | None => raise KeyError
  end.

(** [a <= 0] and [a > 0]: defined on numbers only. *)
Definition py_le0 (a : value) : res bool :=
  match num_of a with
  | Some x => Ok (Qle_bool x 0)
  | None => Raise TypeError
  end.
Definition py_gt0 (a : value) : res bool :=
  match num_of a with
  | Some x => Ok (negb (Qle_bool x 0))
  | None => Raise TypeError
  end.

(** [not item], for the result of [findItemByKeys]: true for [None] and
    also for an empty dictionary. *)
Definition not_item (found : option (nat * row)) : bool :=
  match found with
  | None => true
  | Some (_, item) => bool_decide (item = ∅)
  end.

(** ** [__on_message] *)

(** [item.update(updateData)] followed by the eviction of a filled or
    cancelled order; [i] is the position of [item] in [tbl]. *)
Definition merge_item (table : tname) (tbl : list row) (i : nat)
    (item updateData : row) : M unit :=
  let item' := updateData ∪ item in
  let tbl' := <[i := item']> tbl in
  set_data table tbl' ;;;
  if bool_decide (table = Some "order") then
    lq <~ lift (getitem item' "leavesQty") ;;
    le <~ lift (py_le0 lq) ;;
    if le then
      match list_remove item' tbl' with
      | Some tbl'' => set_data table tbl''
      | None => raise ValueError
      end
    else ret tt
  else ret tt.

(** How a loop was left: by running to its end, or by the [return]
    statement inside it. *)
Inductive flow := Completed | Returned.

(** The loop of the ['update'] branch. *)
Fixpoint update_loop (table : tname) (rows : list row) : M flow :=
  match rows with
  | [] => ret Completed
  | updateData :: rows' =>
      ks <~ get_keys table ;;
      tbl <~ get_data table ;;
      found <~ lift (findItemByKeys ks tbl updateData) ;;
      if not_item found then ret Returned
      else
        match found with
        | None => ret Returned
        | Some (i, item) =>
            merge_item table tbl i item updateData ;;;
            update_loop table rows'
        end
  end.

(** The loop of the ['delete'] branch.  [remove(None)] finds no equal
    element in a list of dictionaries and raises. *)
Fixpoint delete_loop (table : tname) (rows : list row) : M unit :=
  match rows with
  | [] => ret tt
  | deleteData :: rows' =>
      ks <~ get_keys table ;;
      tbl <~ get_data table ;;
      found <~ lift (findItemByKeys ks tbl deleteData) ;;
      match found with
      | None => raise ValueError
      | Some (_, item) =>
          match list_remove item tbl with
          | Some tbl' => set_data table tbl'
          | None => raise ValueError
          end ;;;
          delete_loop table rows'
      end
  end.

(** [if table not in self.data: self.data[table] = []] *)
Definition ensure_table (table : tname) : M unit :=
  λ st, match data st !! table with
        | Some _ => (st, Ok tt)
        | None => set_data table [] st
        end.

(** [self.data[table] += message['data']] *)
Definition extend_table (table : tname) (m : message) : M unit :=
  tbl <~ get_data table ;;
  rows <~ field (m_data m) ;;
  set_data table (tbl ++ rows).

(** The body of the [try] statement. *)
Definition try_body (m : message) : M unit :=
  match m_subscribe m with
  | Some _ => ret tt
  | None =>
      match m_action m with
      | None => ret tt
      | Some action =>
          if bool_decide (action = "") then ret tt
          else
            let table := m_table m in
            ensure_table table ;;;
            if bool_decide (action = "partial") then
              extend_table table m ;;;
              ks <~ field (m_keys m) ;;
              set_keys table ks
            else if bool_decide (action = "insert") then
              extend_table table m
            else if bool_decide (action = "update") then
              rows <~ field (m_data m) ;;
              update_loop table rows ;;;
              ret tt
            else if bool_decide (action = "delete") then
              rows <~ field (m_data m) ;;
              delete_loop table rows
            else raise (UnknownAction action)
      end
  end.

(** The object: its table store, the tracebacks written by
    [self.logger.error], and whether the transport [self.ws] is open. *)
Record client := Client {
  c_store : store;
  c_errors : list exn;
  c_open : bool
}.

(** [__on_message]: the bare [except:] catches every exception of the
    body and logs it; nothing else is done with it. *)
Definition on_message (c : client) (m : message) : client :=
  match try_body m (c_store c) with
  | (st, Ok _) => Client st (c_errors c) (c_open c)
  | (st, Raise e) => Client st (c_errors c ++ [e]) (c_open c)
  end.

(** The delivery thread hands the messages to the handler one at a time,
    in arrival order. *)
Definition deliver (c : client) (ms : list message) : client :=
  foldl on_message c ms.

(** [exit]: the transport is closed. *)
Definition exit (c : client) : client :=
  Client (c_store c) (c_errors c) false.

(** ** Numeric helpers of the query surface *)

(** Counts how often [small] can be multiplied by ten without exceeding
    [big]. *)
Fixpoint log10_loop (fuel : nat) (small big : Z) : Z :=
  match fuel with
  | O => 0
  | S fuel' =>
      if 10 * small <=? big then 1 + log10_loop fuel' (10 * small) big else 0
  end.

(** Numerator and denominator of a positive rational, smaller one first. *)
Definition small_big (q : Q) : Z * Z :=
  if Qnum q <? Zpos (Qden q) then (Qnum q, Zpos (Qden q))
  else (Zpos (Qden q), Qnum q).

(** [int(math.fabs(math.log10(q)))] for [q > 0]: the integer part of
    [|log10 q|], which is [log10 (big / small)].  This is the integer
    part of the exact logarithm; [math.log10] returns a double, and its
    integer part can be the next integer when [q] is within rounding
    distance of a power of ten ([clear_between] keeps away from them). *)
Definition int_fabs_log10 (q : Q) : Z :=
  let '(small, big) := small_big q in
  log10_loop (S (Z.to_nat (Z.log2 big))) small big.

(** [int(math.fabs(math.log10(v)))]: [log10] wants a number ([TypeError])
    that is positive ([ValueError]). *)
Definition tick_log (v : value) : res Z :=
  match num_of v with
  | None => Raise TypeError
  | Some q => if Qle_bool q 0 then Raise ValueError else Ok (int_fabs_log10 q)
  end.

(** Rounding to the nearest integer, ties to the even one, as [round]
    does. *)
Definition round_half_even (x : Q) : Z :=
  let f := Qfloor x in
  match (x - inject_Z f ?= 1 # 2)%Q with
  | Lt => f
  | Gt => f + 1
  | Eq => if Z.even f then f else f + 1
  end.

(** [round(x, n)] for an integer [n]: the decimal with [n] digits nearest
    to [x], ties to the even one.  The float that [round] returns is the
    double nearest to this decimal; for [n = 0] and a double [x] it is
    this number itself. *)
Definition round_digits (x : Q) (n : Z) : Q :=
  if 0 <=? n then Qred (round_half_even (x * inject_Z (10 ^ n)) # Z.to_pos (10 ^ n))
  else inject_Z (round_half_even (x / inject_Z (10 ^ (- n))) * 10 ^ (- n)).

(** [round(x, ndigits)]: a float for an integer [ndigits], an [int] for
    [None]. *)
Definition py_round (x : Q) (ndigits : value) : res value :=
  match ndigits with
  | VNone => Ok (VInt (round_half_even x))
  | VInt n => Ok (VFloat (round_digits x n))
  | VBool b => Ok (VFloat (round_digits x (if b then 1 else 0)))
  | VFloat _ | VStr _ => Raise TypeError
  end.

(** [v or 0] *)
Definition or0 (v : value) : value := if truthy v then v else VInt 0.

(** [l[0]] and [l[-1]] *)
Definition first_row (l : list row) : res row :=
  match l !! 0%nat with
  | Some r => Ok r
  | None => Raise IndexError
  end.
Definition last_row (l : list row) : res row :=
  match last l with
  | Some r => Ok r
  | None => Raise IndexError
  end.

(** ** The query surface *)

Definition get_instrument : M row :=
  tbl <~ get_data (Some "instrument") ;;
  instrument <~ lift (first_row tbl) ;;
  ts <~ lift (getitem instrument "tickSize") ;;
  tl <~ lift (tick_log ts) ;;
  let instrument' := <["tickLog" := VInt tl]> instrument in
  set_data (Some "instrument") (<[0%nat := instrument']> tbl) ;;;
  ret instrument'.

Definition funds : M row :=
  tbl <~ get_data (Some "margin") ;;
  lift (first_row tbl).

Definition market_depth : M (list row) := get_data (Some "orderBook25").

Definition recent_trades : M (list row) := get_data (Some "trade").

Section Builtins.
(** The conversions between strings and floats are those of the Python
    runtime; they are kept abstract. [float_of_str] is [None] where
    [float(s)] raises [ValueError]. *)
Variable float_of_str : string → option Q.
Variable str_of_float : Q → string.

(** [float(v)].  An [int] is converted as it is, which is what the code
    does up to 2^53 in absolute value; beyond that [float] rounds to the
    nearest double, and from about 2^1024 on it raises [OverflowError]
    ([float_ok] keeps below). *)
Definition py_float (v : value) : res Q :=
  match v with
  | VNone => Raise TypeError
  | VStr s =>
      match float_of_str s with
      | Some q => Ok q
      | None => Raise ValueError
      end
  | VBool _ | VInt _ | VFloat _ =>
      match num_of v with
      | Some q => Ok q
      | None => Raise TypeError
      end
  end.

(** [str(v)] *)
Definition py_str (v : value) : string :=
  match v with
  | VNone => "None"
  | VBool b => if b then "True" else "False"
  | VInt n => pretty n
  | VFloat q => str_of_float q
  | VStr s => s
  end.

(** [round(float(v or 0), instrument['tickLog'])] *)
Definition round_field (instrument : row) (v : value) : res value :=
  res_bind (py_float (or0 v)) (λ x,
  res_bind (getitem instrument "tickLog") (λ tl,
  py_round x tl)).

Definition get_ticker : M row :=
  quote <~ get_data (Some "quote") ;;
  lastQuote <~ lift (last_row quote) ;;
  trade <~ get_data (Some "trade") ;;
  lastTrade <~ lift (last_row trade) ;;
  last <~ lift (getitem lastTrade "price") ;;
  buy <~ lift (getitem lastQuote "bidPrice") ;;
  sell <~ lift (getitem lastQuote "askPrice") ;;
  bid <~ lift (py_float (or0 buy)) ;;
  ask <~ lift (py_float (or0 sell)) ;;
  let mid := VFloat ((bid + ask) / 2) in
  tbl <~ get_data (Some "instrument") ;;
  instrument <~ lift (first_row tbl) ;;
  last' <~ lift (round_field instrument last) ;;
  buy' <~ lift (round_field instrument buy) ;;
  sell' <~ lift (round_field instrument sell) ;;
  mid' <~ lift (round_field instrument mid) ;;
  ret ({[ "last" := last'; "buy" := buy'; "sell" := sell'; "mid" := mid' ]} : row).

(** The list comprehension of [open_orders]; [and] evaluates
    [o['leavesQty']] only for an order whose identifier has the prefix. *)
Fixpoint open_filter (clOrdIDPrefix : string) (orders : list row)
  : res (list row) :=
  match orders with
  | [] => Ok []
  | o :: orders' =>
      res_bind (getitem o "clOrdID") (λ c,
      res_bind (if String.prefix clOrdIDPrefix (py_str c)
                then res_bind (getitem o "leavesQty") py_gt0
                else Ok false) (λ keep,
      res_bind (open_filter clOrdIDPrefix orders') (λ l,
      Ok (if keep then o :: l else l))))
  end.

Definition open_orders (clOrdIDPrefix : string) : M (list row) :=
  orders <~ get_data (Some "order") ;;
  lift (open_filter clOrdIDPrefix orders).
End Builtins.

(** ** [round(|log10 x|)], the tick log as the specification words it *)

(** For [x = big / small ≥ 1] the nearest integer to [log10 x] is [k]
    exactly when [10^(2k-1) ≤ x² < 10^(2k+1)]; [log10] of a rational is
    never half-way between two integers. *)
Definition is_round_abs_log10 (q : Q) (k : Z) : Prop :=
  let '(small, big) := small_big q in
  0 ≤ k ∧ 10 ^ (2 * k) * small ^ 2 ≤ 10 * big ^ 2 ∧ big ^ 2 < 10 ^ (2 * k + 1) * small ^ 2.

Definition round_abs_log10 (q : Q) : Z :=
  let '(small, big) := small_big q in
  let k := int_fabs_log10 q in
  if big ^ 2 <? 10 ^ (2 * k + 1) * small ^ 2 then k else k + 1.

(** ** The matching rule, and the shape of table events *)

(** Rows [r] and [d] agree on field [k]: both have it, with equal values. *)
Definition agree (r d : row) (k : string) : bool :=
  match r !! k, d !! k with
  | Some a, Some b => py_eq a b
  | _, _ => false
  end.

(** [r] and [d] match on the key set [ks]. *)
Definition matchesb (ks : list string) (r d : row) : bool :=
  forallb (agree r d) ks.

(** Every field of the key set is present in [r]. *)
Definition has_keys (ks : list string) (r : row) : Prop :=
  Forall (λ k, is_Some (r !! k)) ks.

(** A table event [{"table": .., "action": .., "data": .., "keys": ..}]. *)
Definition event (table : tname) (action : string) (rows : list row)
    (ks : option (list string)) : message :=
  Message None table (Some action) (Some rows) ks.

(** The rows of a table, the empty list for a table never seen. *)
Definition rows_of (st : store) (table : tname) : list row :=
  default [] (data st !! table).

(** The order rule of the ['update'] branch applies to the merged row
    [r] of table [table]: the table is [order] and [leavesQty <= 0]. *)
Definition evicts (table : tname) (r : row) : bool :=
  bool_decide (table = Some "order")
  && match r !! "leavesQty" with
     | Some lq => match py_le0 lq with Ok b => b | Raise _ => false end
     | None => false
     end.

(** The table after one matched row of an ['update'] message: the merged
    row replaces the matched one, or is evicted. *)
Definition merged_table (table : tname) (tbl : list row) (i : nat)
    (item updateData : row) : list row :=
  if evicts table (updateData ∪ item) then delete i tbl
  else <[i := updateData ∪ item]> tbl.

(** The store with the rows of one table replaced. *)
Definition with_rows (st : store) (table : tname) (l : list row) : store :=
  Store (<[table := l]> (data st)) (keys st).

(** The store once the handler has made sure that the table exists. *)
Definition ensured (st : store) (table : tname) : store :=
  fst (ensure_table table st).

(** [d] matches no row of the table, under the key set registered for
    it.  Without a registered key set nothing can match. *)
Definition unmatched (st : store) (table : tname) (d : row) : Prop :=
  ∀ ks, keys st !! table = Some ks →
        Forall (λ r, matchesb ks r d = false) (rows_of st table).

(** The actions that the handler knows, and the empty string, which it
    takes for an absent action. *)
Definition known_actions : list string :=
  [""; "partial"; "insert"; "update"; "delete"].

(** [tbl'] is [tbl] with at most one row replaced or removed. *)
Definition one_row_changed (tbl tbl' : list row) : Prop :=
  tbl' = tbl ∨ ∃ i, (i < length tbl)%nat ∧ ((∃ r, tbl' = <[i := r]> tbl) ∨ tbl' = delete i tbl).

(** The rows of a table that do not match [d]. *)
Definition others (ks : list string) (d : row) (tbl : list row) : list row :=
  filter (λ r, matchesb ks r d = false) tbl.

(** A computation that leaves the store as it found it. *)
Definition read_only {A} (c : M A) : Prop := ∀ st, fst (c st) = st.

(** [unmatched], as a test. *)
Definition unmatchedb (st : store) (table : tname) (d : row) : bool :=
  match keys st !! table with
  | Some ks => forallb (λ r, negb (matchesb ks r d)) (rows_of st table)
  | None => true
  end.

(** [has_keys] for every row of a table and for [d], as a test. *)
Definition has_keysb (ks : list string) (rows : list row) : bool :=
  forallb (λ r : row, forallb (λ k, bool_decide (is_Some (r !! k))) ks) rows.

(** ** Sample data *)

(** Stand-ins for the conversions of the Python runtime, for the examples
    below; none of them converts a string. *)
Definition float_of_str0 : string → option Q := λ _, None.
Definition str_of_float0 : Q → string := λ _, "".

Definition fresh_client : client := Client empty_store [] true.

(** An order book keyed by [symbol] and [level]. *)
Definition book : tname := Some "orderBook25".
Definition level_X1 : row :=
  {[ "symbol" := VStr "X"; "level" := VInt 1; "price" := VInt 100 ]}.
Definition level_X2 : row :=
  {[ "symbol" := VStr "X"; "level" := VInt 2; "price" := VInt 101 ]}.
Definition level_Y1 : row :=
  {[ "symbol" := VStr "Y"; "level" := VInt 1; "price" := VInt 7 ]}.
Definition book_store : store :=
  Store {[ book := [level_X1; level_X2; level_Y1] ]}
        {[ book := ["symbol"; "level"] ]}.
Definition book_client : client := Client book_store [] true.

(** Rows of messages for the book: one for level 1 of [X], one for level
    2 of [X], one for a level that the book does not have. *)
Definition row_X1 : row :=
  {[ "symbol" := VStr "X"; "level" := VInt 1; "price" := VInt 99 ]}.
Definition row_X2 : row :=
  {[ "symbol" := VStr "X"; "level" := VInt 2; "price" := VInt 98 ]}.
Definition row_Z9 : row :=
  {[ "symbol" := VStr "Z"; "level" := VInt 9; "price" := VInt 1 ]}.

(** The open order 42 with five contracts left, and the update that
    fills it. *)
Definition orders : tname := Some "order".
Definition order_42 : row :=
  {[ "orderID" := VInt 42; "clOrdID" := VStr "bot-1"; "leavesQty" := VInt 5 ]}.
Definition order_43 : row :=
  {[ "orderID" := VInt 43; "clOrdID" := VStr "bot-2"; "leavesQty" := VInt 3 ]}.
Definition order_store : store :=
  Store {[ orders := [order_42; order_43] ]} {[ orders := ["orderID"] ]}.
Definition fill_42 : row := {[ "orderID" := VInt 42; "leavesQty" := VInt 0 ]}.

(** A table without key fields whose first row is the empty dictionary. *)
Definition trades : tname := Some "trade".
Definition blank_store : store := Store {[ trades := [∅] ]} {[ trades := [] ]}.
Definition blank_client : client := Client blank_store [] true.
Definition row_a1 : row := {[ "a" := VInt 1 ]}.

(** Rows of two successive [partial] images of one table. *)
Definition trade_1 : row := {[ "id" := VInt 1 ]}.
Definition trade_2 : row := {[ "id" := VInt 2 ]}.

(** The market of the ticker example: tick size 0.5, last trade at
    100.37, last quote 100.0 / 100.5. *)
Definition instrument_half : row := {[ "tickSize" := VFloat 0.5 ]}.
Definition quote_100 : row :=
  {[ "bidPrice" := VFloat 100.0; "askPrice" := VFloat 100.5 ]}.
Definition trade_100 : row := {[ "price" := VFloat 100.37 ]}.
Definition market_store : store :=
  Store {[ Some "instrument" := [instrument_half];
           Some "quote" := [quote_100];
           Some "trade" := [trade_100] ]} ∅.

(** The ticker that the specification expects for that market. *)
Definition expected_ticker : row :=
  {[ "last" := VInt 100; "buy" := VInt 100; "sell" := VInt 101; "mid" := VInt 100 ]}.


(** ** The conditions awaited after connecting *)

(** [{'margin', 'position', 'order'} <= set(self.data)], the condition
    that ends the loop of [__push_account]. *)
Definition account_ready (st : store) : Prop :=
  ({[ Some "margin"; Some "position"; Some "order" ]} : gset tname) ⊆ dom (data st).

(** [{'instrument', 'trade', 'orderBook25'} <= set(self.data)], the
    condition that ends the loop of [__push_symbol]. *)
Definition symbol_ready (st : store) : Prop :=
  ({[ Some "instrument"; Some "trade"; Some "orderBook25" ]} : gset tname) ⊆ dom (data st).

(** From [st] to [st'] nothing has changed outside table [T], and neither
    the table [T] nor its key set has been dropped. *)
Definition grows_at (T : tname) (st st' : store) : Prop :=
  (∀ T', T' ≠ T → data st' !! T' = data st !! T' ∧ keys st' !! T' = keys st !! T')
  ∧ (is_Some (data st !! T) → is_Some (data st' !! T))
  ∧ (is_Some (keys st !! T) → is_Some (keys st' !! T)).

(** A computation that writes to table [T] and its key set only. *)
Definition writes_only {A} (T : tname) (c : M A) : Prop :=
  ∀ st, grows_at T st (fst (c st)).

(** A [partial] message that lacks the ['keys'] field. *)
Definition partial_without_keys (table : tname) (rows : list row) : message :=
  Message None table (Some "partial") (Some rows) None.

(** More sample data: a fresh client after an [update] for each of the
    tables awaited by [__push_account], none of which was ever filled. *)
Definition primed_by_updates : client :=
  deliver fresh_client
    [event (Some "margin") "update" [row_a1] None;
     event (Some "position") "update" [row_a1] None;
     event (Some "order") "update" [row_a1] None].

(** ** Tests on orders, for the properties of [open_orders] *)

(** The condition of the comprehension of [open_orders] on an order that
    has the fields it reads. *)
Definition is_open (str_of_float : Q → string) (clOrdIDPrefix : string)
    (o : row) : bool :=
  match o !! "clOrdID", o !! "leavesQty" with
  | Some c, Some lq =>
      String.prefix clOrdIDPrefix (py_str str_of_float c)
      && match num_of lq with Some q => negb (Qle_bool q 0) | None => false end
  | _, _ => false
  end.

(** The order has a ['clOrdID'], and if that has the prefix, it has a
    number as ['leavesQty']. *)
Definition order_ok (str_of_float : Q → string) (clOrdIDPrefix : string)
    (o : row) : bool :=
  match o !! "clOrdID" with
  | None => false
  | Some c =>
      if String.prefix clOrdIDPrefix (py_str str_of_float c) then
        match o !! "leavesQty" with
        | Some lq => bool_decide (is_Some (num_of lq))
        | None => false
        end
      else true
  end.

(** Three orders of one's own and of somebody else, and one that has no
    ['leavesQty']. *)
Definition order_bot_1 : row := {[ "clOrdID" := VStr "bot-1"; "leavesQty" := VInt 3 ]}.
Definition order_bot_2 : row := {[ "clOrdID" := VStr "bot-2"; "leavesQty" := VInt 0 ]}.
Definition order_other_1 : row := {[ "clOrdID" := VStr "other-1"; "leavesQty" := VInt 5 ]}.
Definition order_other_2 : row := {[ "clOrdID" := VInt 7 ]}.
Definition mixed_orders : store :=
  Store {[ orders := [order_bot_1; order_bot_2; order_other_1; order_other_2] ]} ∅.

(** A market whose last quote has no bid, the instrument row carrying
    [tickLog] already. *)
Definition quote_no_bid : row := {[ "bidPrice" := VNone; "askPrice" := VFloat 100.5 ]}.
Definition one_sided_store : store :=
  Store {[ Some "instrument" := [ <["tickLog" := VInt 0]> instrument_half ];
           Some "quote" := [quote_no_bid];
           Some "trade" := [trade_100] ]} ∅.

(** An instrument whose tick size is zero. *)
Definition zero_tick_store : store :=
  Store {[ Some "instrument" := [ {[ "tickSize" := VInt 0 ]} ] ]} ∅.

(** No two rows of the table agree on every key field. *)
Definition distinct_rows (ks : list string) (tbl : list row) : Prop :=
  ∀ i j r r', i ≠ j → tbl !! i = Some r → tbl !! j = Some r' →
              matchesb ks r r' = false.

(** ** Waiting for the connection, in [__connect] *)

(** What one test of the loop condition sees of the transport:
    [self.ws.sock] is unset, or it is a socket, connected or not. *)
Inductive sock := NoSock | Sock (connected : bool).

(** How the wait goes: the loop is left with the countdown not at zero
    and the constructor goes on; the loop is left with the countdown at
    zero and the constructor logs the failure and exits; or the loop is
    still running after all that was seen, the countdown as it stands. *)
Inductive wait := Proceeds (conn_timeout : Z) | Exits | StillWaiting (conn_timeout : Z).

(** [not self.ws.sock or not self.ws.sock.connected and conn_timeout] *)
Definition keeps_waiting (s : sock) (conn_timeout : Z) : bool :=
  match s with
  | NoSock => true
  | Sock connected => negb connected && negb (conn_timeout =? 0)
  end.

(** The [while] loop and the [if not conn_timeout] after it; [seen] is
    the state of the transport at each test of the loop condition. *)
Fixpoint connect_loop (seen : list sock) (conn_timeout : Z) : wait :=
  match seen with
  | [] => StillWaiting conn_timeout
  | s :: seen' =>
      if keeps_waiting s conn_timeout then connect_loop seen' (conn_timeout - 1)
      else if conn_timeout =? 0 then Exits
      else Proceeds conn_timeout
  end.

(** The wait as [__connect] starts it. *)
Definition connect_wait (seen : list sock) : wait := connect_loop seen 5.

(** [q], or [1/q] if that is the larger, lies between [10^j] and
    [10^(j+1)] and is clear of both by a relative [2^-20]: between
    [10^j (1 + 2^-20)] and [10^(j+1) (1 - 2^-20)]. *)
Definition clear_between (q : Q) (j : Z) : Prop :=
  let '(small, big) := small_big q in
  small * 10 ^ j * (2 ^ 20 + 1) ≤ big * 2 ^ 20
  ∧ big * 2 ^ 20 ≤ small * 10 ^ (j + 1) * (2 ^ 20 - 1).

(** [float(v or 0)] returns: [v or 0] is a float, a [bool], or an [int]
    well below the range of the doubles. *)
Definition float_ok (v : value) : bool :=
  match or0 v with
  | VFloat _ | VBool _ => true
  | VInt n => Z.abs n <? 2 ^ 1023
  | VNone | VStr _ => false
  end.

(** ** Properties of the value comparison *)

Lemma py_eq_refl a : py_eq a a = true.
Proof.
  destruct a as [|b|n|q|s]; simpl; try done;
    try (apply Qeq_bool_iff; reflexivity).
  by apply bool_decide_eq_true.
Qed.

Lemma py_eq_num a b :
  py_eq a b = true →
  (∃ x y, num_of a = Some x ∧ num_of b = Some y ∧ Qeq x y)
  ∨ (num_of a = None ∧ a = b).
Proof.
  unfold py_eq.
  destruct (num_of a) as [x|] eqn:Ha.
  - destruct (num_of b) as [y|] eqn:Hb.
    + intros H%Qeq_bool_iff. left. eauto.
    + destruct a, b; simpl in *; done.
  - intros H. right. split; [done|].
    destruct a, b; simpl in *; try done.
    apply bool_decide_eq_true in H. by subst.
Qed.

Lemma py_eq_trans a b c : py_eq a b = true → py_eq b c = true → py_eq a c = true.
Proof.
  intros Hab Hbc.
  destruct (py_eq_num _ _ Hab) as [(x & y & Hx & Hy & Hxy)|[Hn ->]]; [|done].
  destruct (py_eq_num _ _ Hbc) as [(y' & z & Hy' & Hz & Hyz)|[Hn ->]]; [|done].
  rewrite Hy in Hy'. injection Hy' as <-.
  unfold py_eq. rewrite Hx, Hz. apply Qeq_bool_iff.
  by rewrite Hxy.
Qed.

Lemma row_eqb_refl r : row_eqb r r = true.
Proof.
  unfold row_eqb. apply andb_true_iff. split; apply bool_decide_eq_true; [done|].
  intros k a Hk. rewrite Hk. simpl. apply py_eq_refl.
Qed.

Lemma row_eqb_lookup r1 r2 k b :
  row_eqb r1 r2 = true → r2 !! k = Some b →
  ∃ a, r1 !! k = Some a ∧ py_eq a b = true.
Proof.
  unfold row_eqb. intros [Hd Hv]%andb_true_iff Hk.
  apply bool_decide_eq_true in Hd, Hv.
  assert (k ∈ dom r1) as [a Ha]%elem_of_dom.
  { rewrite Hd. apply elem_of_dom. eauto. }
  exists a. split; [done|].
  specialize (Hv k a Ha). simpl in Hv. by rewrite Hk in Hv.
Qed.

(** ** Properties of [findItemByKeys] *)

Lemma keys_loop_ok ks item d m b :
  keys_loop ks item d m = Ok b → b = m && matchesb ks item d.
Proof.
  revert m. induction ks as [|k ks IH]; intros m; simpl.
  - intros [= <-]. by rewrite andb_true_r.
  - unfold getitem, agree.
    destruct (item !! k) as [a|]; simpl; [|done].
    destruct (d !! k) as [b'|]; simpl; [|done].
    intros ->%IH. unfold py_ne.
    destruct (py_eq a b'), m; simpl; done.
Qed.

Lemma keys_loop_total ks item d m :
  has_keys ks item → has_keys ks d →
  keys_loop ks item d m = Ok (m && matchesb ks item d).
Proof.
  revert m. induction ks as [|k ks IH]; intros m Hi Hd; simpl.
  - by rewrite andb_true_r.
  - apply Forall_cons in Hi as [[a Ha] Hi]. apply Forall_cons in Hd as [[b Hb] Hd].
    unfold getitem, agree. rewrite Ha, Hb. simpl.
    rewrite IH by done. unfold py_ne.
    destruct (py_eq a b), m; simpl; done.
Qed.

Lemma find_from_some i ks t d j item :
  find_from i ks t d = Ok (Some (j, item)) →
  ∃ n, j = (i + n)%nat ∧ t !! n = Some item ∧ matchesb ks item d = true
       ∧ ∀ m r, (m < n)%nat → t !! m = Some r → matchesb ks r d = false.
Proof.
  revert i. induction t as [|r t IH]; intros i; simpl; [done|].
  destruct (keys_loop ks r d true) as [b|] eqn:Hk; simpl; [|done].
  apply keys_loop_ok in Hk. simpl in Hk. subst b.
  destruct (matchesb ks r d) eqn:Hm.
  - intros [= <- <-]. exists 0%nat. repeat split; [lia|done|lia].
  - intros (n & -> & Hn & Hmn & Hlt)%IH.
    exists (S n). repeat split; [lia|done|done|].
    intros [|m] r' Hlt' Hr'; simpl in Hr'.
    + by injection Hr' as <-.
    + apply (Hlt m); [lia|done].
Qed.

Lemma find_from_none i ks t d :
  find_from i ks t d = Ok None → Forall (λ r, matchesb ks r d = false) t.
Proof.
  revert i. induction t as [|r t IH]; intros i; simpl; [done|].
  destruct (keys_loop ks r d true) as [b|] eqn:Hk; simpl; [|done].
  apply keys_loop_ok in Hk. simpl in Hk. subst b.
  destruct (matchesb ks r d) eqn:Hm; [done|].
  intros H%IH. by constructor.
Qed.

Lemma find_from_total i ks t d :
  Forall (has_keys ks) t → has_keys ks d →
  ∃ o, find_from i ks t d = Ok o.
Proof.
  intros Ht Hd. revert i. induction Ht as [|r t Hr Ht IH]; intros i; simpl; [eauto|].
  rewrite keys_loop_total by done. simpl.
  destruct (matchesb ks r d); eauto.
Qed.

Lemma find_unmatched ks t d :
  Forall (λ r, matchesb ks r d = false) t →
  ∀ i item, findItemByKeys ks t d ≠ Ok (Some (i, item)).
Proof.
  intros Hall i item (n & _ & Hn & Hm & _)%find_from_some.
  eapply Forall_lookup_1 in Hall; [|done]. simpl in Hall. congruence.
Qed.

Lemma agree_trans r x d k :
  row_eqb r x = true → agree x d k = true → agree r d k = true.
Proof.
  unfold agree. intros Heq.
  destruct (x !! k) as [b'|] eqn:Hx; [|done].
  destruct (d !! k) as [b|] eqn:Hd; [|done].
  intros Hb. destruct (row_eqb_lookup _ _ _ _ Heq Hx) as (a & -> & Ha).
  by eapply py_eq_trans.
Qed.

Lemma row_eqb_matches ks r x d :
  row_eqb r x = true → matchesb ks x d = true → matchesb ks r d = true.
Proof.
  unfold matchesb. intros Heq Hx. apply forallb_forall. intros k Hk.
  eapply agree_trans; [done|]. eapply forallb_forall in Hx; done.
Qed.

Lemma matchesb_merge ks item d :
  matchesb ks item d = true → matchesb ks (d ∪ item) d = true.
Proof.
  unfold matchesb. intros H. apply forallb_forall. intros k Hk.
  eapply forallb_forall in H; [|done]. unfold agree in *.
  destruct (item !! k) as [a|]; [|done].
  destruct (d !! k) as [b|] eqn:Hd; [|done].
  erewrite lookup_union_Some_l by done. apply py_eq_refl.
Qed.

(** ** Properties of [list.remove] *)

Lemma list_remove_at x (t : list row) i :
  t !! i = Some x →
  (∀ j r, (j < i)%nat → t !! j = Some r → row_eqb r x = false) →
  list_remove x t = Some (delete i t).
Proof.
  revert i. induction t as [|y t IH]; intros i Hi Hlt; [done|].
  destruct i as [|i]; simpl in *.
  - injection Hi as ->. by rewrite row_eqb_refl.
  - rewrite (Hlt 0%nat y) by (done || lia).
    rewrite (IH i); [done|done|].
    intros j r Hj Hr. apply (Hlt (S j)); [lia|done].
Qed.

Lemma list_remove_found ks d x (t : list row) i :
  t !! i = Some x →
  matchesb ks x d = true →
  (∀ j r, (j < i)%nat → t !! j = Some r → matchesb ks r d = false) →
  list_remove x t = Some (delete i t).
Proof.
  intros Hi Hx Hlt. apply list_remove_at; [done|].
  intros j r Hj Hr. destruct (row_eqb r x) eqn:Heq; [|done].
  specialize (Hlt j r Hj Hr).
  by rewrite (row_eqb_matches ks r x d) in Hlt.
Qed.

Lemma delete_insert_same (t : list row) i x : delete i (<[i := x]> t) = delete i t.
Proof.
  revert i. induction t as [|y t IH]; intros [|i]; simpl; try done.
  by rewrite IH.
Qed.

Lemma list_remove_in x (t t' : list row) :
  list_remove x t = Some t' → ∃ i, (i < length t)%nat ∧ t' = delete i t.
Proof.
  revert t'. induction t as [|y t IH]; intros t'; simpl; [done|].
  destruct (row_eqb y x).
  - intros [= <-]. exists 0%nat. split; [lia|done].
  - destruct (list_remove x t) as [t''|]; simpl; [|done].
    intros [= <-]. destruct (IH _ eq_refl) as (i & Hi & ->).
    exists (S i). split; [lia|done].
Qed.

(** ** One step of the handler's loops *)

Lemma with_rows_twice st T l l' : with_rows (with_rows st T l) T l' = with_rows st T l'.
Proof. unfold with_rows. simpl. by rewrite insert_insert_eq. Qed.

Lemma update_loop_cons T d rest st :
  update_loop T (d :: rest) st =
  match keys st !! T, data st !! T with
  | Some ks, Some tbl =>
      match findItemByKeys ks tbl d with
      | Raise e => (st, Raise e)
      | Ok None => (st, Ok Returned)
      | Ok (Some (i, item)) =>
          if bool_decide (item = ∅) then (st, Ok Returned)
          else match merge_item T tbl i item d st with
               | (st', Ok _) => update_loop T rest st'
               | (st', Raise e) => (st', Raise e)
               end
      end
  | _, _ => (st, Raise KeyError)
  end.
Proof.
  simpl. unfold bind, get_keys, get_data, lift.
  destruct (keys st !! T) as [ks|]; [|by destruct (data st !! T)].
  destruct (data st !! T) as [tbl|]; [|done].
  destruct (findItemByKeys ks tbl d) as [[[i item]|]|e]; simpl; try done.
  by destruct (bool_decide (item = ∅)).
Qed.

Lemma delete_loop_cons T d rest st :
  delete_loop T (d :: rest) st =
  match keys st !! T, data st !! T with
  | Some ks, Some tbl =>
      match findItemByKeys ks tbl d with
      | Raise e => (st, Raise e)
      | Ok None => (st, Raise ValueError)
      | Ok (Some (i, item)) =>
          match list_remove item tbl with
          | Some tbl' => delete_loop T rest (with_rows st T tbl')
          | None => (st, Raise ValueError)
          end
      end
  | _, _ => (st, Raise KeyError)
  end.
Proof.
  simpl. unfold bind, get_keys, get_data, lift.
  destruct (keys st !! T) as [ks|]; [|by destruct (data st !! T)].
  destruct (data st !! T) as [tbl|]; [|done].
  destruct (findItemByKeys ks tbl d) as [[[i item]|]|e]; simpl; try done.
  by destruct (list_remove item tbl).
Qed.

Lemma merge_item_eq T tbl i item d st :
  merge_item T tbl i item d st =
  let item' := d ∪ item in
  let tbl' := <[i := item']> tbl in
  if bool_decide (T = Some "order") then
    match item' !! "leavesQty" with
    | None => (with_rows st T tbl', Raise KeyError)
    | Some lq =>
        match py_le0 lq with
        | Raise e => (with_rows st T tbl', Raise e)
        | Ok false => (with_rows st T tbl', Ok tt)
        | Ok true =>
            match list_remove item' tbl' with
            | Some tbl'' => (with_rows st T tbl'', Ok tt)
            | None => (with_rows st T tbl', Raise ValueError)
            end
        end
    end
  else (with_rows st T tbl', Ok tt).
Proof.
  unfold merge_item, bind, set_data, lift, getitem, ret, raise, with_rows. simpl.
  destruct (bool_decide (T = Some "order")); [|done].
  destruct ((d ∪ item) !! "leavesQty") as [lq|]; [|done].
  destruct (py_le0 lq) as [[]|]; try done.
  destruct (list_remove _ _); [|done].
  simpl. by rewrite insert_insert_eq.
Qed.

(** The row found by [findItemByKeys] is merged, and evicted exactly when
    the order rule applies to it. *)
Lemma merge_item_found ks T tbl i item d st :
  findItemByKeys ks tbl d = Ok (Some (i, item)) →
  ∃ r, merge_item T tbl i item d st = (with_rows st T (merged_table T tbl i item d), r).
Proof.
  intros (n & Hn & Hi & Hm & Hlt)%find_from_some. simpl in Hn. subst n.
  rewrite merge_item_eq. unfold merged_table, evicts. simpl.
  destruct (bool_decide (T = Some "order")); simpl; [|eauto].
  destruct ((d ∪ item) !! "leavesQty") as [lq|]; [|eauto].
  destruct (py_le0 lq) as [[]|]; eauto.
  rewrite (list_remove_found ks d _ _ i).
  - rewrite delete_insert_same. eauto.
  - apply list_lookup_insert_eq. by eapply lookup_lt_Some.
  - by apply matchesb_merge.
  - intros j r Hj Hr. rewrite list_lookup_insert_ne in Hr by lia. by eapply Hlt.
Qed.

Lemma merge_item_plain T tbl i item d st :
  T ≠ Some "order" →
  merge_item T tbl i item d st = (with_rows st T (<[i := d ∪ item]> tbl), Ok tt).
Proof.
  intros HT. rewrite merge_item_eq. simpl.
  by rewrite bool_decide_eq_false_2.
Qed.

Lemma update_loop_app T pre rest st st1 :
  update_loop T pre st = (st1, Ok Completed) →
  update_loop T (pre ++ rest) st = update_loop T rest st1.
Proof.
  revert st. induction pre as [|d pre IH]; intros st.
  - by intros [= <-].
  - rewrite <- app_comm_cons, !update_loop_cons.
    destruct (keys st !! T) as [ks|]; [|by destruct (data st !! T)].
    destruct (data st !! T) as [tbl|]; [|done].
    destruct (findItemByKeys ks tbl d) as [[[i item]|]|e]; try done.
    destruct (bool_decide (item = ∅)); [done|].
    destruct (merge_item T tbl i item d st) as [st' [[]|e]]; [|done].
    apply IH.
Qed.

Lemma delete_loop_app T pre rest st st1 :
  delete_loop T pre st = (st1, Ok tt) →
  delete_loop T (pre ++ rest) st = delete_loop T rest st1.
Proof.
  revert st. induction pre as [|d pre IH]; intros st.
  - by intros [= <-].
  - rewrite <- app_comm_cons, !delete_loop_cons.
    destruct (keys st !! T) as [ks|]; [|by destruct (data st !! T)].
    destruct (data st !! T) as [tbl|]; [|done].
    destruct (findItemByKeys ks tbl d) as [[[i item]|]|e]; try done.
    destruct (list_remove item tbl); [|done].
    apply IH.
Qed.

Lemma ensure_table_eq T st : ensure_table T st = (ensured st T, Ok tt).
Proof. unfold ensured, ensure_table. by destruct (data st !! T). Qed.

Lemma ensured_data T st : data (ensured st T) !! T = Some (rows_of st T).
Proof.
  unfold ensured, ensure_table, rows_of.
  destruct (data st !! T) eqn:H; simpl; [done|]. apply lookup_insert_eq.
Qed.

Lemma ensured_keys T st : keys (ensured st T) = keys st.
Proof. unfold ensured, ensure_table. by destruct (data st !! T). Qed.

Lemma ensured_with_rows T st l : with_rows (ensured st T) T l = with_rows st T l.
Proof.
  unfold ensured, ensure_table, with_rows.
  destruct (data st !! T); simpl; [done|]. by rewrite insert_insert_eq.
Qed.

(** Neither loop drops a table or touches the key sets. *)
Lemma merge_item_inv T tbl i item d st st' r :
  merge_item T tbl i item d st = (st', r) →
  is_Some (data st' !! T) ∧ keys st' = keys st.
Proof.
  rewrite merge_item_eq. simpl. unfold with_rows.
  repeat case_match; intros [= <- <-]; simpl; by rewrite lookup_insert_eq.
Qed.

Lemma update_loop_inv T rows st st' r :
  update_loop T rows st = (st', r) →
  is_Some (data st !! T) →
  is_Some (data st' !! T) ∧ keys st' = keys st.
Proof.
  revert st. induction rows as [|d rows IH]; intros st.
  - by intros [= <- <-].
  - rewrite update_loop_cons. intros Hrun Hs.
    destruct (Hs) as [tbl Hd]. rewrite Hd in Hrun.
    destruct (keys st !! T) as [ks|]; [|by simplify_eq].
    destruct (findItemByKeys ks tbl d) as [[[i item]|]|e]; [|by simplify_eq..].
    destruct (bool_decide (item = ∅)); [by simplify_eq|].
    destruct (merge_item T tbl i item d st) as [st2 r2] eqn:Hm.
    apply merge_item_inv in Hm as [Hs2 Hk2].
    destruct r2; [|by simplify_eq].
    apply IH in Hrun as [? ?]; [|done]. split; [done|congruence].
Qed.

Lemma delete_loop_inv T rows st st' r :
  delete_loop T rows st = (st', r) →
  is_Some (data st !! T) →
  is_Some (data st' !! T) ∧ keys st' = keys st.
Proof.
  revert st. induction rows as [|d rows IH]; intros st.
  - by intros [= <- <-].
  - rewrite delete_loop_cons. intros Hrun Hs.
    destruct (Hs) as [tbl Hd]. rewrite Hd in Hrun.
    destruct (keys st !! T) as [ks|]; [|by simplify_eq].
    destruct (findItemByKeys ks tbl d) as [[[i item]|]|e]; [|by simplify_eq..].
    destruct (list_remove item tbl) as [tbl'|]; [|by simplify_eq].
    apply IH in Hrun as [? ?]; [done|].
    unfold with_rows. simpl. by rewrite lookup_insert_eq.
Qed.

Lemma ensured_is_Some T st : is_Some (data (ensured st T) !! T).
Proof. rewrite ensured_data. eauto. Qed.

(** A row that matches nothing stops either loop where it stands. *)
Lemma update_loop_unmatched T d post st :
  unmatched st T d →
  ∃ r, update_loop T (d :: post) st = (st, r) ∧ r ≠ Ok Completed.
Proof.
  intros Hun. rewrite update_loop_cons. unfold unmatched, rows_of in Hun.
  destruct (keys st !! T) as [ks|]; [|destruct (data st !! T); by eauto].
  specialize (Hun ks eq_refl).
  destruct (data st !! T) as [tbl|]; [|by eauto]. simpl in Hun.
  destruct (findItemByKeys ks tbl d) as [[[i item]|]|e] eqn:Hf; [|by eauto..].
  by apply find_unmatched in Hf.
Qed.

Lemma delete_loop_unmatched T d post st :
  unmatched st T d →
  ∃ e, delete_loop T (d :: post) st = (st, Raise e)
       ∧ (∀ ks, keys st !! T = Some ks → is_Some (data st !! T) →
                Forall (has_keys ks) (rows_of st T) → has_keys ks d →
                e = ValueError).
Proof.
  intros Hun. rewrite delete_loop_cons. unfold unmatched, rows_of in *.
  destruct (keys st !! T) as [ks|].
  2:{ destruct (data st !! T); eexists; (split; [done|]); by intros. }
  specialize (Hun ks eq_refl).
  destruct (data st !! T) as [tbl|].
  2:{ eexists. split; [done|]. by intros ? _ []. }
  simpl in *.
  destruct (findItemByKeys ks tbl d) as [[[i item]|]|e] eqn:Hf.
  - by apply find_unmatched in Hf.
  - eauto.
  - eexists. split; [done|]. intros ks' [= <-] _ Hall Hkd.
    destruct (find_from_total 0 ks tbl d Hall Hkd) as [o Ho].
    unfold findItemByKeys in Hf. congruence.
Qed.

(** ** One message *)

Lemma try_body_partial T rows ks st :
  try_body (event T "partial" rows (Some ks)) st =
  (Store (<[T := rows_of st T ++ rows]> (data st)) (<[T := ks]> (keys st)), Ok tt).
Proof.
  unfold try_body, event. simpl. unfold bind.
  rewrite ensure_table_eq. unfold extend_table, bind, get_data.
  rewrite ensured_data. simpl.
  pose proof (ensured_with_rows T st (rows_of st T ++ rows)) as H.
  unfold with_rows in H. by rewrite H.
Qed.

Lemma try_body_update T rows kz st :
  try_body (event T "update" rows kz) st =
  match update_loop T rows (ensured st T) with
  | (st', Ok _) => (st', Ok tt)
  | (st', Raise e) => (st', Raise e)
  end.
Proof.
  unfold try_body, event. simpl. unfold bind.
  rewrite ensure_table_eq. simpl.
  by destruct (update_loop T rows (ensured st T)) as [st' [f|e]].
Qed.

Lemma try_body_delete T rows kz st :
  try_body (event T "delete" rows kz) st = delete_loop T rows (ensured st T).
Proof.
  unfold try_body, event. simpl. unfold bind.
  rewrite ensure_table_eq. simpl.
  by destruct (delete_loop T rows (ensured st T)) as [st' [[]|e]].
Qed.

Lemma try_body_unknown T action rows kz st :
  action ∉ known_actions →
  try_body (event T action rows kz) st = (ensured st T, Raise (UnknownAction action)).
Proof.
  intros Hn. unfold try_body, event. simpl.
  repeat (rewrite bool_decide_eq_false_2;
          [|intros ->; apply Hn; unfold known_actions; set_solver]).
  unfold bind. by rewrite ensure_table_eq.
Qed.

Lemma on_message_update_store c T rows kz :
  c_store (on_message c (event T "update" rows kz)) =
  fst (update_loop T rows (ensured (c_store c) T)).
Proof.
  unfold on_message. rewrite try_body_update.
  by destruct (update_loop _ _ _) as [st [f|e]].
Qed.

Lemma on_message_delete_store c T rows kz :
  c_store (on_message c (event T "delete" rows kz)) =
  fst (delete_loop T rows (ensured (c_store c) T)).
Proof.
  unfold on_message. rewrite try_body_delete.
  by destruct (delete_loop _ _ _) as [st [f|e]].
Qed.

Lemma rows_of_with_rows st T l : rows_of (with_rows st T l) T = l.
Proof. unfold rows_of, with_rows. simpl. by rewrite lookup_insert_eq. Qed.

Lemma rows_of_ensured st T : rows_of (ensured st T) T = rows_of st T.
Proof. unfold rows_of at 1. by rewrite ensured_data. Qed.

(** One row of an ['update'] message: the table is left as it was, or the
    row found by [findItemByKeys] is merged (and possibly evicted). *)
Lemma update_single T d st ks tbl :
  keys st !! T = Some ks → data st !! T = Some tbl →
  rows_of (fst (update_loop T [d] st)) T = tbl
  ∨ ∃ i item, findItemByKeys ks tbl d = Ok (Some (i, item)) ∧ item ≠ ∅
      ∧ rows_of (fst (update_loop T [d] st)) T = merged_table T tbl i item d.
Proof.
  intros Hk Hd. rewrite update_loop_cons, Hk, Hd.
  assert (rows_of st T = tbl) as Hr by (unfold rows_of; by rewrite Hd).
  destruct (findItemByKeys ks tbl d) as [[[i item]|]|e] eqn:Hf; [|by left..].
  case_bool_decide as He; [by left|]. right. exists i, item.
  destruct (merge_item_found ks T tbl i item d st Hf) as [r ->].
  repeat split; [done|]. destruct r; simpl; apply rows_of_with_rows.
Qed.

(** One row of a ['delete'] message: the table is left as it was, or the
    row found by [findItemByKeys] is removed. *)
Lemma delete_single T d st ks tbl :
  keys st !! T = Some ks → data st !! T = Some tbl →
  rows_of (fst (delete_loop T [d] st)) T = tbl
  ∨ ∃ i item, findItemByKeys ks tbl d = Ok (Some (i, item))
      ∧ rows_of (fst (delete_loop T [d] st)) T = delete i tbl.
Proof.
  intros Hk Hd. rewrite delete_loop_cons, Hk, Hd.
  assert (rows_of st T = tbl) as Hr by (unfold rows_of; by rewrite Hd).
  destruct (findItemByKeys ks tbl d) as [[[i item]|]|e] eqn:Hf; [|by left..].
  right. exists i, item. split; [done|].
  apply find_from_some in Hf as (n & Hn & Hi & Hm & Hlt). simpl in Hn. subst n.
  rewrite (list_remove_found ks d item tbl i) by done. simpl.
  apply rows_of_with_rows.
Qed.

Lemma merged_table_one_row T tbl i item d :
  (i < length tbl)%nat → one_row_changed tbl (merged_table T tbl i item d).
Proof.
  intros Hi. right. exists i. split; [done|]. unfold merged_table.
  destruct (evicts _ _); [by right|left; eauto].
Qed.

(** ** Rows that do not match are kept as they are *)

Lemma others_insert ks d (tbl : list row) i x y :
  tbl !! i = Some x → matchesb ks x d = true → matchesb ks y d = true →
  others ks d (<[i := y]> tbl) = others ks d tbl.
Proof.
  unfold others. revert i. induction tbl as [|z tbl IH]; intros [|i] Hi Hx Hy;
    simpl in *; try done.
  - injection Hi as ->. rewrite !filter_cons.
    rewrite !decide_False; [done|congruence..].
  - rewrite !filter_cons. by rewrite (IH i).
Qed.

Lemma others_delete ks d (tbl : list row) i x :
  tbl !! i = Some x → matchesb ks x d = true →
  others ks d (delete i tbl) = others ks d tbl.
Proof.
  unfold others. revert i. induction tbl as [|z tbl IH]; intros [|i] Hi Hx;
    simpl in *; try done.
  - injection Hi as ->. rewrite filter_cons.
    rewrite decide_False; [done|congruence].
  - rewrite !filter_cons. by rewrite (IH i).
Qed.

Lemma others_merged ks T d (tbl : list row) i item :
  tbl !! i = Some item → matchesb ks item d = true →
  others ks d (merged_table T tbl i item d) = others ks d tbl.
Proof.
  intros Hi Hm. unfold merged_table. destruct (evicts _ _).
  - by eapply others_delete.
  - eapply others_insert; [done..|]. by apply matchesb_merge.
Qed.

(** ** The query surface *)

Lemma read_only_ret {A} (a : A) : read_only (ret a).
Proof. done. Qed.

Lemma read_only_lift {A} (r : res A) : read_only (lift r).
Proof. done. Qed.

Lemma read_only_get_data T : read_only (get_data T).
Proof. done. Qed.

Lemma read_only_bind {A B} (c : M A) (k : A → M B) :
  read_only c → (∀ a, read_only (k a)) → read_only (bind c k).
Proof.
  intros Hc Hk st. unfold bind. specialize (Hc st).
  destruct (c st) as [st' [a|e]]; simpl in *; subst; [apply Hk|done].
Qed.

Create HintDb reads.
#[local] Hint Resolve read_only_ret read_only_lift read_only_get_data : reads.
#[local] Hint Extern 2 (read_only (bind _ _)) =>
  apply read_only_bind; [|intros] : reads.

Lemma open_filter_gt0 str_of_float pfx l l' o :
  open_filter str_of_float pfx l = Ok l' → o ∈ l' →
  ∃ lq, o !! "leavesQty" = Some lq ∧ py_gt0 lq = Ok true.
Proof.
  revert l'. induction l as [|x l IH]; intros l'; simpl.
  - intros [= <-] H. by apply elem_of_nil in H.
  - unfold getitem at 1. destruct (x !! "clOrdID") as [c|]; simpl; [|done].
    destruct (String.prefix pfx (py_str str_of_float c)).
    + unfold getitem. destruct (x !! "leavesQty") as [lq|] eqn:Hlq; simpl; [|done].
      destruct (py_gt0 lq) as [keep|] eqn:Hgt; simpl; [|done].
      destruct (open_filter str_of_float pfx l) as [l0|]; simpl; [|done].
      intros [= <-]. destruct keep; [|by eauto].
      intros [->|Ho]%elem_of_cons; by eauto.
    + simpl. destruct (open_filter str_of_float pfx l) as [l0|]; simpl; [|done].
      intros [= <-]. by eauto.
Qed.

(** ** The integer part of [|log10 q|] *)

Lemma log10_loop_spec fuel small big :
  0 < small → small ≤ big → big < small * 10 ^ Z.of_nat fuel →
  let k := log10_loop fuel small big in
  0 ≤ k ∧ small * 10 ^ k ≤ big ∧ big < small * 10 ^ (k + 1).
Proof.
  revert small. induction fuel as [|fuel IH]; intros small Hs Hle Hlt; simpl.
  - simpl in Hlt. lia.
  - destruct (Z.leb_spec (10 * small) big) as [H10|H10].
    + destruct (IH (10 * small)) as (Hk & Hlo & Hhi); [lia|done| |].
      { rewrite Nat2Z.inj_succ, Z.pow_succ_r in Hlt by lia. lia. }
      set (k := log10_loop fuel (10 * small) big) in *.
      split; [lia|].
      replace (1 + k) with (Z.succ k) by lia.
      replace (Z.succ k + 1) with (Z.succ (k + 1)) by lia.
      rewrite !Z.pow_succ_r by lia. lia.
    + simpl. lia.
Qed.

Lemma small_big_pos q :
  (0 < q)%Q → let '(small, big) := small_big q in 0 < small ∧ small ≤ big.
Proof.
  destruct q as [n p]. unfold Qlt, small_big. simpl. intros H.
  destruct (Z.ltb_spec n (Z.pos p)); lia.
Qed.

Lemma int_fabs_log10_spec q :
  (0 < q)%Q →
  let '(small, big) := small_big q in
  let k := int_fabs_log10 q in
  0 ≤ k ∧ small * 10 ^ k ≤ big ∧ big < small * 10 ^ (k + 1).
Proof.
  intros Hq. pose proof (small_big_pos q Hq) as Hsb. unfold int_fabs_log10.
  destruct (small_big q) as [small big]. destruct Hsb as [Hs Hle].
  apply log10_loop_spec; [done..|].
  assert (0 < big) as Hb by lia.
  destruct (Z.log2_spec big Hb) as [_ Hhi].
  rewrite Nat2Z.inj_succ, Z2Nat.id by apply Z.log2_nonneg.
  assert (2 ^ Z.succ (Z.log2 big) ≤ 10 ^ Z.succ (Z.log2 big)) as H210.
  { apply Z.pow_le_mono_l. lia. }
  assert (0 < 10 ^ Z.succ (Z.log2 big)) as Hpos.
  { apply Z.pow_pos_nonneg; [lia|]. pose proof (Z.log2_nonneg big). lia. }
  nia.
Qed.



(** [round_abs_log10] computes the nearest integer to [|log10 q|]. *)
Lemma round_abs_log10_spec q :
  (0 < q)%Q → is_round_abs_log10 q (round_abs_log10 q).
Proof.
  intros Hq. pose proof (int_fabs_log10_spec q Hq) as H.
  pose proof (small_big_pos q Hq) as Hsb.
  unfold is_round_abs_log10, round_abs_log10.
  destruct (small_big q) as [small big]. destruct Hsb as [Hs Hle].
  set (k := int_fabs_log10 q) in *. simpl in H. destruct H as (Hk & Hlo & Hhi).
  assert (0 < 10 ^ k) as Hp by (apply Z.pow_pos_nonneg; lia).
  assert (10 ^ (2 * k) = 10 ^ k * 10 ^ k) as E0.
  { replace (2 * k) with (k + k) by lia. by rewrite Z.pow_add_r by lia. }
  assert (10 ^ (k + 1) = 10 * 10 ^ k) as E1.
  { rewrite Z.pow_add_r by lia. lia. }
  assert (10 ^ (2 * k + 1) = 10 * (10 ^ k * 10 ^ k)) as E2.
  { rewrite Z.pow_add_r, E0 by lia. lia. }
  assert (10 ^ (2 * (k + 1)) = 100 * (10 ^ k * 10 ^ k)) as E3.
  { replace (2 * (k + 1)) with (2 * k + 1 + 1) by lia.
    rewrite Z.pow_add_r, E2 by lia. lia. }
  assert (10 ^ (2 * (k + 1) + 1) = 1000 * (10 ^ k * 10 ^ k)) as E4.
  { rewrite Z.pow_add_r, E3 by lia. lia. }
  rewrite E1 in Hhi. set (p := 10 ^ k) in *.
  destruct (Z.ltb_spec (big ^ 2) (10 ^ (2 * k + 1) * small ^ 2)) as [Hlt|Hge].
  - rewrite E0. split; [lia|]. split; [nia|done].
  - rewrite E3, E4. rewrite E2 in Hge. split; [lia|]. split; nia.
Qed.

Ltac solve_read :=
  repeat first
    [ apply read_only_ret | apply read_only_lift | apply read_only_get_data
    | apply read_only_bind; [|intros] ].

Lemma get_ticker_read_only float_of_str : read_only (get_ticker float_of_str).
Proof. unfold get_ticker. solve_read. Qed.

Lemma open_orders_read_only str_of_float pfx : read_only (open_orders str_of_float pfx).
Proof. unfold open_orders. solve_read. Qed.

Lemma funds_read_only : read_only funds.
Proof. unfold funds. solve_read. Qed.

Lemma get_instrument_eq st :
  get_instrument st =
  match data st !! Some "instrument" with
  | None => (st, Raise KeyError)
  | Some [] => (st, Raise IndexError)
  | Some (ins :: tbl) =>
      match ins !! "tickSize" with
      | None => (st, Raise KeyError)
      | Some v =>
          match tick_log v with
          | Raise e => (st, Raise e)
          | Ok k =>
              (with_rows st (Some "instrument") (<["tickLog" := VInt k]> ins :: tbl),
               Ok (<["tickLog" := VInt k]> ins))
          end
      end
  end.
Proof.
  unfold get_instrument, bind, get_data, lift, first_row, getitem, set_data, ret,
    with_rows.
  destruct (data st !! Some "instrument") as [[|ins tbl]|]; simpl; try done.
  destruct (ins !! "tickSize") as [v|]; simpl; done.
Qed.

Lemma round_field_float float_of_str (ins : row) q n :
  ins !! "tickLog" = Some (VInt n) → Qeq_bool q 0 = false →
  round_field float_of_str ins (VFloat q) = Ok (VFloat (round_digits q n)).
Proof.
  intros Hn Hq. unfold round_field, or0, getitem. simpl. by rewrite Hq, Hn.
Qed.

(** ** The tests decide what they stand for *)

Lemma unmatchedb_sound st T d : unmatchedb st T d = true → unmatched st T d.
Proof.
  unfold unmatchedb, unmatched. intros H ks Hk. rewrite Hk in H.
  apply Forall_forall. intros r Hr%list_elem_of_In.
  eapply forallb_forall in H; [|done]. by apply negb_true_iff.
Qed.

Lemma has_keysb_sound ks rows : has_keysb ks rows = true → Forall (has_keys ks) rows.
Proof.
  unfold has_keysb, has_keys. intros H.
  apply Forall_forall. intros r Hr%list_elem_of_In.
  eapply forallb_forall in H; [|done].
  apply Forall_forall. intros k Hk%list_elem_of_In.
  eapply forallb_forall in H; [|done]. by apply bool_decide_eq_true in H.
Qed.

(** ** The claims *)

(** C1 (the code departs from it).  Two [partial] messages for the same
    table: the handler extends the table with each, so after the second
    one the table holds the rows it had before, then the rows of the
    first message, then those of the second; the key set is that of the
    second message. *)
Theorem partial_twice_appends c T R K R' K' :
  let c' := deliver c [event T "partial" R (Some K); event T "partial" R' (Some K')] in
  data (c_store c') !! T = Some (rows_of (c_store c) T ++ R ++ R')
  ∧ keys (c_store c') !! T = Some K'.
Proof.
  simpl. unfold on_message. rewrite try_body_partial. simpl.
  rewrite try_body_partial. simpl. unfold rows_of at 1. simpl.
  rewrite !lookup_insert_eq. simpl. by rewrite app_assoc.
Qed.

(** C3.  An [update] message whose rows before [d] were all applied and
    whose row [d] matches no row of the table: the handler stops at [d].
    The store is the one reached by the earlier rows (for [d] in first
    position, the store with at most the empty table added), whatever
    rows follow [d]; the transport is left open; and when the key fields
    are present in [d] and in every row, nothing is logged either. *)
Theorem update_unmatched_abandons c T pre d post kz st1 :
  update_loop T pre (ensured (c_store c) T) = (st1, Ok Completed) →
  unmatched st1 T d →
  let c' := on_message c (event T "update" (pre ++ d :: post) kz) in
  c_store c' = st1
  ∧ c_open c' = c_open c
  ∧ (∀ ks, keys st1 !! T = Some ks →
           Forall (has_keys ks) (rows_of st1 T) → has_keys ks d →
           c_errors c' = c_errors c).
Proof.
  intros Hpre Hun. simpl. unfold on_message.
  rewrite try_body_update, (update_loop_app _ _ _ _ _ Hpre).
  rewrite update_loop_cons.
  destruct (update_loop_inv _ _ _ _ _ Hpre (ensured_is_Some _ _)) as [[tbl Hd] _].
  rewrite Hd.
  destruct (keys st1 !! T) as [ks|] eqn:Hk; [|by repeat split].
  specialize (Hun ks Hk). unfold rows_of in *.
  rewrite Hd in *. simpl in *.
  destruct (findItemByKeys ks tbl d) as [[[i item]|]|e] eqn:Hf.
  - by apply find_unmatched in Hf.
  - by repeat split.
  - repeat split; try done. intros ks' [= <-] Hall Hkd.
    destruct (find_from_total 0 ks tbl d Hall Hkd) as [o Ho].
    unfold findItemByKeys in Hf. congruence.
Qed.

(** C5.  A [delete] message whose rows before [d] were all removed and
    whose row [d] matches no row of the table: the body of the handler
    raises at [d] (a [ValueError] from [remove] when the key fields are
    all present); the handler catches it and logs it, the transport stays
    open, and the messages after it are handled from the resulting state.
    The same holds for a message with an action that is not known. *)
Theorem delete_unmatched_is_caught c T pre d post kz st1 action rows ms :
  delete_loop T pre (ensured (c_store c) T) = (st1, Ok tt) →
  unmatched st1 T d →
  action ∉ known_actions →
  let m := event T "delete" (pre ++ d :: post) kz in
  let m' := event T action rows kz in
  (∃ e, try_body m (c_store c) = (st1, Raise e)
        ∧ on_message c m = Client st1 (c_errors c ++ [e]) (c_open c)
        ∧ (∀ ks, keys st1 !! T = Some ks →
                 Forall (has_keys ks) (rows_of st1 T) → has_keys ks d →
                 e = ValueError))
  ∧ try_body m' (c_store c) = (ensured (c_store c) T, Raise (UnknownAction action))
  ∧ on_message c m' =
      Client (ensured (c_store c) T) (c_errors c ++ [UnknownAction action]) (c_open c)
  ∧ deliver c (m :: ms) = deliver (on_message c m) ms
  ∧ deliver c (m' :: ms) = deliver (on_message c m') ms.
Proof.
  intros Hpre Hun Hact. simpl. repeat split.
  - destruct (delete_loop_unmatched T d post st1 Hun) as (e & He & Hv).
    exists e. unfold on_message.
    rewrite try_body_delete, (delete_loop_app _ _ _ _ _ Hpre), He.
    repeat split. intros ks Hk. apply Hv; [done|].
    by destruct (delete_loop_inv _ _ _ _ _ Hpre (ensured_is_Some _ _)).
  - by apply try_body_unknown.
  - unfold on_message. by rewrite try_body_unknown.
Qed.

(** C10.  Neither loop is atomic.  When the rows before an unmatched row
    were applied, the store left by the aborted message is the store that
    those rows produced: the message has the effect of the message cut
    off before the unmatched row, for [update] (early return) and for
    [delete] (exception) alike. *)
Theorem abort_keeps_earlier_rows c T pre d post pre' d' post' kz st1 st2 :
  update_loop T pre (ensured (c_store c) T) = (st1, Ok Completed) →
  unmatched st1 T d →
  delete_loop T pre' (ensured (c_store c) T) = (st2, Ok tt) →
  unmatched st2 T d' →
  c_store (on_message c (event T "update" (pre ++ d :: post) kz)) = st1
  ∧ c_store (on_message c (event T "update" pre kz)) = st1
  ∧ c_store (on_message c (event T "delete" (pre' ++ d' :: post') kz)) = st2
  ∧ c_store (on_message c (event T "delete" pre' kz)) = st2.
Proof.
  intros Hu Hud Hd Hdd. unfold on_message.
  rewrite !try_body_update, !try_body_delete.
  rewrite (update_loop_app _ _ _ _ _ Hu), (delete_loop_app _ _ _ _ _ Hd), Hu, Hd.
  destruct (update_loop_unmatched T d post st1 Hud) as (r & -> & _).
  destruct (delete_loop_unmatched T d' post' st2 Hdd) as (e & -> & _).
  by destruct r.
Qed.

(** C4.  One row [d] of an [update] message, under the key set [ks] of
    its table: the only row that can change is one that agrees with [d]
    on every key field, and it becomes the merge of the two (or is
    evicted, in the [order] table).  The rows that differ from [d] on a
    key field are the same rows in the same order afterwards, and outside
    the [order] table each keeps its index.  A [delete] row removes at
    most one row, which agrees with [d] on every key field. *)
Theorem update_touches_matching_row_only c T ks d kz :
  keys (c_store c) !! T = Some ks →
  let tbl := rows_of (c_store c) T in
  let tbl' := rows_of (c_store (on_message c (event T "update" [d] kz))) T in
  let tbl'' := rows_of (c_store (on_message c (event T "delete" [d] kz))) T in
  (tbl' = tbl
   ∨ ∃ i item, tbl !! i = Some item ∧ matchesb ks item d = true
        ∧ tbl' = merged_table T tbl i item d)
  ∧ others ks d tbl' = others ks d tbl
  ∧ (T ≠ Some "order" →
     ∀ j r, tbl !! j = Some r → matchesb ks r d = false → tbl' !! j = Some r)
  ∧ (tbl'' = tbl
     ∨ ∃ i item, tbl !! i = Some item ∧ matchesb ks item d = true
          ∧ tbl'' = delete i tbl)
  ∧ others ks d tbl'' = others ks d tbl.
Proof.
  intros Hk. simpl.
  rewrite on_message_update_store, on_message_delete_store.
  pose proof (ensured_data T (c_store c)) as Hd.
  rewrite <- (ensured_keys T) in Hk.
  destruct (update_single T d _ ks _ Hk Hd) as [Hu|(i & item & Hf & _ & Hu)];
  destruct (delete_single T d _ ks _ Hk Hd) as [Hx|(i' & item' & Hf' & Hx)];
    rewrite Hu, Hx; clear Hu Hx;
    try (apply find_from_some in Hf as (n & Hn & Hi & Hm & _);
         simpl in Hn; subst n);
    try (apply find_from_some in Hf' as (n & Hn & Hi' & Hm' & _);
         simpl in Hn; subst n);
    (split; [by eauto 10|]); (split; [by eauto using others_merged|]);
    (split; [|split; [by eauto 10|by eauto using others_delete]]);
    try done.
  all: intros HT j r Hj Hr; unfold merged_table, evicts;
    rewrite bool_decide_eq_false_2 by done; simpl;
    rewrite list_lookup_insert_ne; [done|]; intros ->; congruence.
Qed.

(** C9.  When the key fields are present in every row and in [d],
    [findItemByKeys] returns the first row, in table order, that agrees
    with [d] on every key field, and [None] when there is none.  One
    [update] row and one [delete] row therefore change at most one row
    of the table, however many rows agree with it; and with an empty key
    set the first row of the table is the one returned. *)
Theorem findItemByKeys_first_match ks tbl d T st :
  Forall (has_keys ks) tbl → has_keys ks d →
  keys st !! T = Some ks → data st !! T = Some tbl →
  (∃ o, findItemByKeys ks tbl d = Ok o
        ∧ match o with
          | Some (i, item) =>
              tbl !! i = Some item ∧ matchesb ks item d = true
              ∧ ∀ j r, (j < i)%nat → tbl !! j = Some r → matchesb ks r d = false
          | None => Forall (λ r, matchesb ks r d = false) tbl
          end)
  ∧ one_row_changed tbl (rows_of (fst (update_loop T [d] st)) T)
  ∧ one_row_changed tbl (rows_of (fst (delete_loop T [d] st)) T)
  ∧ (∀ r t d0, findItemByKeys [] (r :: t) d0 = Ok (Some (0%nat, r))).
Proof.
  intros Hall Hd Hk Ht. repeat split.
  - destruct (find_from_total 0 ks tbl d Hall Hd) as [o Ho].
    exists o. split; [done|]. destruct o as [[i item]|].
    + apply find_from_some in Ho as (n & Hn & ? & ? & ?). simpl in Hn. by subst n.
    + by eapply find_from_none.
  - destruct (update_single T d st ks tbl Hk Ht) as [->|(i & item & Hf & _ & ->)];
      [by left|].
    apply merged_table_one_row.
    apply find_from_some in Hf as (n & Hn & Hi & _). simpl in Hn. subst n.
    by eapply lookup_lt_Some.
  - destruct (delete_single T d st ks tbl Hk Ht) as [->|(i & item & Hf & ->)];
      [by left|].
    right. exists i. split; [|by right].
    apply find_from_some in Hf as (n & Hn & Hi & _). simpl in Hn. subst n.
    by eapply lookup_lt_Some.
Qed.

(** What holds of C2 when the matched row is not the empty dictionary:
    the fields of the update overwrite or extend those of the row, the
    merged row takes the place of the matched one, and in the [order]
    table a merged row with [leavesQty <= 0] is removed instead, after
    which [open_orders] does not return it. *)
Lemma update_merges_and_evicts str_of_float pfx T d st ks tbl i item :
  keys st !! T = Some ks → data st !! T = Some tbl →
  findItemByKeys ks tbl d = Ok (Some (i, item)) → item ≠ ∅ →
  let st' := fst (update_loop T [d] st) in
  let item' := d ∪ item in
  (∀ k, item' !! k = match d !! k with Some v => Some v | None => item !! k end)
  ∧ rows_of st' T = (if evicts T item' then delete i tbl else <[i := item']> tbl)
  ∧ (evicts T item' = true →
     ∀ l, snd (open_orders str_of_float pfx st') = Ok l → item' ∉ l).
Proof.
  intros Hk Hd Hf He. cbv zeta. split; [|split].
  - intros k. rewrite lookup_union. by destruct (d !! k), (item !! k).
  - rewrite update_loop_cons, Hk, Hd, Hf, bool_decide_eq_false_2 by done.
    destruct (merge_item_found ks T tbl i item d st Hf) as [r ->].
    destruct r; simpl; apply rows_of_with_rows.
  - unfold evicts. intros [HT Hev]%andb_true_iff l Hl Hin.
    unfold open_orders, bind, get_data, lift in Hl.
    destruct (data _ !! Some "order") as [os|]; simpl in Hl; [|done].
    destruct (open_filter_gt0 _ _ _ _ _ Hl Hin) as (lq & Hlq & Hgt).
    rewrite Hlq in Hev. unfold py_gt0, py_le0 in *.
    destruct (num_of lq); [|done]. injection Hgt as Hgt.
    by rewrite Hev in Hgt.
Qed.

(** C2 (the code departs from it).  The table has no key fields and its
    first row is the empty dictionary: that row matches the update, but
    the handler takes the empty dictionary for "no item found" and
    returns without merging.  The client is left exactly as it was. *)
Theorem update_skips_empty_matched_row :
  findItemByKeys [] [∅] row_a1 = Ok (Some (0%nat, ∅))
  ∧ on_message blank_client (event trades "update" [row_a1] None) = blank_client.
Proof. split; by vm_compute. Qed.

(** C6, as the code has it.  [get_ticker], [funds], [market_depth],
    [open_orders] and [recent_trades] leave the store as it is.
    [get_instrument] leaves the key sets and every table other than
    [instrument] as they are.  When it raises it has written nothing;
    when it returns a row, that row is the first row of [instrument]
    with the field [tickLog] set, and it is the first row of the stored
    table afterwards, the rows behind it being the same. *)
Theorem reads_leave_store_but_get_instrument float_of_str str_of_float pfx st :
  fst (get_ticker float_of_str st) = st
  ∧ fst (funds st) = st
  ∧ fst (market_depth st) = st
  ∧ fst (open_orders str_of_float pfx st) = st
  ∧ fst (recent_trades st) = st
  ∧ keys (fst (get_instrument st)) = keys st
  ∧ (∀ T, T ≠ Some "instrument" → data (fst (get_instrument st)) !! T = data st !! T)
  ∧ (∀ e, snd (get_instrument st) = Raise e → fst (get_instrument st) = st)
  ∧ (∀ r, snd (get_instrument st) = Ok r →
       ∃ ins tbl k, data st !! Some "instrument" = Some (ins :: tbl)
         ∧ r = <["tickLog" := VInt k]> ins
         ∧ data (fst (get_instrument st)) !! Some "instrument" = Some (r :: tbl)).
Proof.
  split; [apply get_ticker_read_only|].
  split; [apply funds_read_only|].
  split; [done|]. split; [apply open_orders_read_only|]. split; [done|].
  rewrite get_instrument_eq.
  destruct (data st !! Some "instrument") as [[|ins tbl]|] eqn:Hd; simpl;
    [by repeat split..| |by repeat split].
  destruct (ins !! "tickSize") as [v|]; simpl; [|by repeat split].
  destruct (tick_log v) as [k|]; simpl; [|by repeat split].
  split; [done|]. split; [|split; [done|]].
  - intros T HT. by rewrite lookup_insert_ne.
  - intros r [= <-]. exists ins, tbl, k. by rewrite lookup_insert_eq.
Qed.

(** C7, as the code has it.  Tick size 0.5, so that [get_instrument]
    sets [tickLog] to 0; last trade at 100.37, last quote 100.0 / 100.5:
    [get_ticker] returns 100 for every field.  The ask 100.5 is half-way
    between 100 and 101, and [round] takes the even one. *)
Theorem ticker_rounds_half_to_even float_of_str st ins itbl q qs t ts :
  data st !! Some "instrument" = Some (ins :: itbl) →
  ins !! "tickSize" = Some (VFloat 0.5) →
  data st !! Some "quote" = Some qs → last qs = Some q →
  q !! "bidPrice" = Some (VFloat 100.0) → q !! "askPrice" = Some (VFloat 100.5) →
  data st !! Some "trade" = Some ts → last ts = Some t →
  t !! "price" = Some (VFloat 100.37) →
  ∃ st' ins',
    get_instrument st = (st', Ok ins')
    ∧ ins' !! "tickLog" = Some (VInt 0)
    ∧ get_ticker float_of_str st' =
        (st', Ok {[ "last" := VFloat 100; "buy" := VFloat 100;
                    "sell" := VFloat 100; "mid" := VFloat 100 ]}).
Proof.
  intros Hi Hts Hq Hlq Hb Ha Ht Hlt Hp.
  rewrite get_instrument_eq, Hi, Hts.
  change (tick_log (VFloat 0.5)) with (Ok 0 : res Z).
  eexists _, _. split; [done|]. split; [apply lookup_insert_eq|].
  unfold get_ticker, bind, get_data, lift, with_rows. simpl.
  rewrite !lookup_insert_ne by done. rewrite Hq, Ht.
  unfold last_row. rewrite Hlq, Hlt. unfold getitem at 1 2 3. rewrite Hp, Hb, Ha.
  rewrite lookup_insert_eq.
  change (py_float float_of_str (or0 (VFloat 100.0))) with (Ok 100.0%Q : res Q).
  change (py_float float_of_str (or0 (VFloat 100.5))) with (Ok 100.5%Q : res Q).
  cbn [first_row lookup list_lookup].
  rewrite !(round_field_float float_of_str _ _ 0)
    by (apply lookup_insert_eq || reflexivity).
  unfold ret.
  replace (round_digits 100.37 0) with 100%Q by (by vm_compute).
  replace (round_digits 100.0 0) with 100%Q by (by vm_compute).
  replace (round_digits 100.5 0) with 100%Q by (by vm_compute).
  replace (round_digits ((100.0 + 100.5) / 2) 0) with 100%Q by (by vm_compute).
  done.
Qed.


(** ** The claims on the sample data *)

(** C1 on two one-row images of the [trade] table: both rows are there
    after the second image. *)
Example partial_twice_example :
  data (c_store (deliver fresh_client
                   [event trades "partial" [trade_1] (Some ["id"]);
                    event trades "partial" [trade_2] (Some ["id"])])) !! trades
  = Some [trade_1; trade_2].
Proof. by vm_compute. Qed.

(** The filling update of order 42 removes it from the [order] table, and
    [open_orders] then returns the other order only. *)
Example order_42_is_evicted :
  rows_of (fst (update_loop orders [fill_42] order_store)) orders = [order_43]
  ∧ snd (open_orders str_of_float0 "bot" (fst (update_loop orders [fill_42] order_store)))
    = Ok [order_43].
Proof. split; by vm_compute. Qed.

Lemma update_unmatched_abandons_witness :
  let st1 := with_rows book_store book [row_X1 ∪ level_X1; level_X2; level_Y1] in
  let c' := on_message book_client
              (event book "update" ([row_X1] ++ row_Z9 :: [row_X2]) None) in
  update_loop book [row_X1] (ensured (c_store book_client) book) = (st1, Ok Completed)
  ∧ unmatched st1 book row_Z9
  ∧ c_store c' = st1
  ∧ c_open c' = c_open book_client
  ∧ (∀ ks, keys st1 !! book = Some ks →
           Forall (has_keys ks) (rows_of st1 book) → has_keys ks row_Z9 →
           c_errors c' = c_errors book_client).
Proof.
  intros st1 c'.
  assert (update_loop book [row_X1] (ensured (c_store book_client) book)
          = (st1, Ok Completed)) as H1 by (vm_compute; reflexivity).
  assert (unmatched st1 book row_Z9) as H2
    by (apply unmatchedb_sound; vm_compute; reflexivity).
  exact (conj H1 (conj H2
    (update_unmatched_abandons book_client book [row_X1] row_Z9 [row_X2] None st1 H1 H2))).
Defined.

Lemma update_touches_matching_row_only_witness :
  let ks := ["symbol"; "level"] in
  let tbl := rows_of (c_store book_client) book in
  let tbl' := rows_of (c_store (on_message book_client (event book "update" [row_X1] None))) book in
  let tbl'' := rows_of (c_store (on_message book_client (event book "delete" [row_X1] None))) book in
  keys (c_store book_client) !! book = Some ks
  ∧ (tbl' = tbl
     ∨ ∃ i item, tbl !! i = Some item ∧ matchesb ks item row_X1 = true
          ∧ tbl' = merged_table book tbl i item row_X1)
  ∧ others ks row_X1 tbl' = others ks row_X1 tbl
  ∧ (book ≠ Some "order" →
     ∀ j r, tbl !! j = Some r → matchesb ks r row_X1 = false → tbl' !! j = Some r)
  ∧ (tbl'' = tbl
     ∨ ∃ i item, tbl !! i = Some item ∧ matchesb ks item row_X1 = true
          ∧ tbl'' = delete i tbl)
  ∧ others ks row_X1 tbl'' = others ks row_X1 tbl.
Proof.
  intros ks tbl tbl' tbl''.
  assert (keys (c_store book_client) !! book = Some ks) as H1
    by (vm_compute; reflexivity).
  exact (conj H1 (update_touches_matching_row_only book_client book ks row_X1 None H1)).
Defined.

(** On the book, the update for level 1 of [X] changes the price of that
    level and nothing else. *)
Example book_update_example :
  rows_of (c_store (on_message book_client (event book "update" [row_X1] None))) book
  = [row_X1; level_X2; level_Y1].
Proof. by vm_compute. Qed.

Lemma delete_unmatched_is_caught_witness :
  let st1 := with_rows book_store book [level_X1; level_Y1] in
  let m := event book "delete" ([row_X2] ++ row_Z9 :: [row_X1]) None in
  let m' := event book "replace" [] None in
  delete_loop book [row_X2] (ensured (c_store book_client) book) = (st1, Ok tt)
  ∧ unmatched st1 book row_Z9
  ∧ ("replace" ∉ known_actions)
  ∧ (∃ e, try_body m (c_store book_client) = (st1, Raise e)
          ∧ on_message book_client m
            = Client st1 (c_errors book_client ++ [e]) (c_open book_client)
          ∧ (∀ ks, keys st1 !! book = Some ks →
                   Forall (has_keys ks) (rows_of st1 book) → has_keys ks row_Z9 →
                   e = ValueError))
  ∧ try_body m' (c_store book_client)
    = (ensured (c_store book_client) book, Raise (UnknownAction "replace"))
  ∧ on_message book_client m'
    = Client (ensured (c_store book_client) book)
        (c_errors book_client ++ [UnknownAction "replace"]) (c_open book_client)
  ∧ deliver book_client (m :: [m']) = deliver (on_message book_client m) [m']
  ∧ deliver book_client (m' :: [m']) = deliver (on_message book_client m') [m'].
Proof.
  intros st1 m m'.
  assert (delete_loop book [row_X2] (ensured (c_store book_client) book)
          = (st1, Ok tt)) as H1 by (vm_compute; reflexivity).
  assert (unmatched st1 book row_Z9) as H2
    by (apply unmatchedb_sound; vm_compute; reflexivity).
  assert ("replace" ∉ known_actions) as H3
    by (apply (bool_decide_unpack _); vm_compute; exact I).
  exact (conj H1 (conj H2 (conj H3
    (delete_unmatched_is_caught book_client book [row_X2] row_Z9 [row_X1] None st1
       "replace" [] [m'] H1 H2 H3)))).
Defined.

(** On the book, the failed delete is logged as a [ValueError], and a
    later message is applied as usual. *)
Example delete_unmatched_example :
  let c' := deliver book_client
              [event book "delete" [row_Z9] None; event book "update" [row_X1] None] in
  c_errors c' = [ValueError] ∧ c_open c' = true
  ∧ rows_of (c_store c') book = [row_X1; level_X2; level_Y1].
Proof. repeat split; by vm_compute. Qed.

Lemma findItemByKeys_first_match_witness :
  let ks := ["symbol"; "level"] in
  let tbl := [level_X1; level_X2; level_Y1] in
  Forall (has_keys ks) tbl ∧ has_keys ks row_X2
  ∧ keys book_store !! book = Some ks ∧ data book_store !! book = Some tbl
  ∧ (∃ o, findItemByKeys ks tbl row_X2 = Ok o
          ∧ match o with
            | Some (i, item) =>
                tbl !! i = Some item ∧ matchesb ks item row_X2 = true
                ∧ ∀ j r, (j < i)%nat → tbl !! j = Some r → matchesb ks r row_X2 = false
            | None => Forall (λ r, matchesb ks r row_X2 = false) tbl
            end)
  ∧ one_row_changed tbl (rows_of (fst (update_loop book [row_X2] book_store)) book)
  ∧ one_row_changed tbl (rows_of (fst (delete_loop book [row_X2] book_store)) book)
  ∧ (∀ r t d0, findItemByKeys [] (r :: t) d0 = Ok (Some (0%nat, r))).
Proof.
  intros ks tbl.
  assert (Forall (has_keys ks) tbl) as H1
    by (apply has_keysb_sound; vm_compute; reflexivity).
  assert (has_keys ks row_X2) as H2.
  { assert (Forall (has_keys ks) [row_X2]) as H
      by (apply has_keysb_sound; vm_compute; reflexivity).
    exact (Forall_inv H). }
  assert (keys book_store !! book = Some ks) as H3 by (vm_compute; reflexivity).
  assert (data book_store !! book = Some tbl) as H4 by (vm_compute; reflexivity).
  exact (conj H1 (conj H2 (conj H3 (conj H4
    (findItemByKeys_first_match ks tbl row_X2 book book_store H1 H2 H3 H4))))).
Defined.

(** With two rows that agree with the datum, only the first is found and
    removed. *)
Example first_of_two_matches :
  findItemByKeys ["symbol"] [level_X1; level_X2; level_Y1] row_X2 = Ok (Some (0%nat, level_X1))
  ∧ rows_of (fst (delete_loop book [row_X2]
                    (Store {[ book := [level_X1; level_X2; level_Y1] ]}
                           {[ book := ["symbol"] ]}))) book
    = [level_X2; level_Y1].
Proof. split; by vm_compute. Qed.

Lemma abort_keeps_earlier_rows_witness :
  let st1 := with_rows book_store book [row_X1 ∪ level_X1; level_X2; level_Y1] in
  let st2 := with_rows book_store book [level_X1; level_Y1] in
  update_loop book [row_X1] (ensured (c_store book_client) book) = (st1, Ok Completed)
  ∧ unmatched st1 book row_Z9
  ∧ delete_loop book [row_X2] (ensured (c_store book_client) book) = (st2, Ok tt)
  ∧ unmatched st2 book row_Z9
  ∧ c_store (on_message book_client
               (event book "update" ([row_X1] ++ row_Z9 :: [row_X2]) None)) = st1
  ∧ c_store (on_message book_client (event book "update" [row_X1] None)) = st1
  ∧ c_store (on_message book_client
               (event book "delete" ([row_X2] ++ row_Z9 :: [row_X1]) None)) = st2
  ∧ c_store (on_message book_client (event book "delete" [row_X2] None)) = st2.
Proof.
  intros st1 st2.
  assert (update_loop book [row_X1] (ensured (c_store book_client) book)
          = (st1, Ok Completed)) as H1 by (vm_compute; reflexivity).
  assert (unmatched st1 book row_Z9) as H2
    by (apply unmatchedb_sound; vm_compute; reflexivity).
  assert (delete_loop book [row_X2] (ensured (c_store book_client) book)
          = (st2, Ok tt)) as H3 by (vm_compute; reflexivity).
  assert (unmatched st2 book row_Z9) as H4
    by (apply unmatchedb_sound; vm_compute; reflexivity).
  exact (conj H1 (conj H2 (conj H3 (conj H4
    (abort_keeps_earlier_rows book_client book [row_X1] row_Z9 [row_X2]
       [row_X2] row_Z9 [row_X1] None st1 st2 H1 H2 H3 H4))))).
Defined.

(** The aborted messages have changed the book. *)
Example abort_not_rolled_back :
  rows_of (c_store (on_message book_client
             (event book "update" [row_X1; row_Z9; row_X2] None))) book
  = [row_X1; level_X2; level_Y1]
  ∧ rows_of (c_store (on_message book_client
               (event book "delete" [row_X2; row_Z9; row_X1] None))) book
    = [level_X1; level_Y1]
  ∧ rows_of (c_store book_client) book = [level_X1; level_X2; level_Y1].
Proof. repeat split; by vm_compute. Qed.

(** C6 fails for [get_instrument]: on the sample market it writes
    [tickLog] into the stored instrument row. *)
Lemma get_instrument_changes_store :
  rows_of market_store (Some "instrument") = [instrument_half]
  ∧ rows_of (fst (get_instrument market_store)) (Some "instrument")
    = [<["tickLog" := VInt 0]> instrument_half]
  ∧ fst (get_instrument market_store) ≠ market_store.
Proof.
  split; [by vm_compute|]. split; [by vm_compute|].
  intros H.
  apply (f_equal (λ st, rows_of st (Some "instrument") !! 0%nat ≫= (.!! "tickLog"))) in H.
  vm_compute in H. discriminate H.
Qed.

(** C7 fails on the sample market: the ticker has 100 as [sell], not 101,
    so it is not equal to the expected dictionary. *)
Lemma ticker_sell_is_100 :
  snd (get_ticker float_of_str0 (fst (get_instrument market_store)))
  = Ok {[ "last" := VFloat 100; "buy" := VFloat 100;
          "sell" := VFloat 100; "mid" := VFloat 100 ]}
  ∧ py_eq (VFloat 100) (VInt 101) = false
  ∧ row_eqb {[ "last" := VFloat 100; "buy" := VFloat 100;
               "sell" := VFloat 100; "mid" := VFloat 100 ]} expected_ticker = false.
Proof. repeat split; by vm_compute. Qed.

Lemma ticker_rounds_half_to_even_witness :
  data market_store !! Some "instrument" = Some [instrument_half]
  ∧ instrument_half !! "tickSize" = Some (VFloat 0.5)
  ∧ data market_store !! Some "quote" = Some [quote_100]
  ∧ last [quote_100] = Some quote_100
  ∧ quote_100 !! "bidPrice" = Some (VFloat 100.0)
  ∧ quote_100 !! "askPrice" = Some (VFloat 100.5)
  ∧ data market_store !! Some "trade" = Some [trade_100]
  ∧ last [trade_100] = Some trade_100
  ∧ trade_100 !! "price" = Some (VFloat 100.37)
  ∧ ∃ st' ins',
      get_instrument market_store = (st', Ok ins')
      ∧ ins' !! "tickLog" = Some (VInt 0)
      ∧ get_ticker float_of_str0 st' =
          (st', Ok {[ "last" := VFloat 100; "buy" := VFloat 100;
                      "sell" := VFloat 100; "mid" := VFloat 100 ]}).
Proof.
  assert (data market_store !! Some "instrument" = Some [instrument_half]) as H1
    by (vm_compute; reflexivity).
  assert (instrument_half !! "tickSize" = Some (VFloat 0.5)) as H2
    by (vm_compute; reflexivity).
  assert (data market_store !! Some "quote" = Some [quote_100]) as H3
    by (vm_compute; reflexivity).
  assert (last [quote_100] = Some quote_100) as H4 by reflexivity.
  assert (quote_100 !! "bidPrice" = Some (VFloat 100.0)) as H5
    by (vm_compute; reflexivity).
  assert (quote_100 !! "askPrice" = Some (VFloat 100.5)) as H6
    by (vm_compute; reflexivity).
  assert (data market_store !! Some "trade" = Some [trade_100]) as H7
    by (vm_compute; reflexivity).
  assert (last [trade_100] = Some trade_100) as H8 by reflexivity.
  assert (trade_100 !! "price" = Some (VFloat 100.37)) as H9
    by (vm_compute; reflexivity).
  exact (conj H1 (conj H2 (conj H3 (conj H4 (conj H5 (conj H6 (conj H7 (conj H8 (conj H9
    (ticker_rounds_half_to_even float_of_str0 market_store instrument_half []
       quote_100 [quote_100] trade_100 [trade_100] H1 H2 H3 H4 H5 H6 H7 H8 H9)))))))))).
Defined.



(** The tick sizes 0.25 and 0.5 are clear of the powers of ten, between
    1 and 10 once inverted. *)
Example quarter_and_half_are_clear : clear_between 0.25 0 ∧ clear_between 0.5 0.
Proof. unfold clear_between. simpl. lia. Qed.

(** * Further properties of the handler and of the query surface *)

(** ** What a message can write *)

Lemma grows_at_refl T st : grows_at T st st.
Proof. by repeat split. Qed.

Lemma grows_at_trans T st1 st2 st3 :
  grows_at T st1 st2 → grows_at T st2 st3 → grows_at T st1 st3.
Proof.
  intros (Ho & Hd & Hk) (Ho' & Hd' & Hk'). repeat split; [| |by auto..].
  - destruct (Ho T' H) as [E _], (Ho' T' H) as [E' _]. congruence.
  - destruct (Ho T' H) as [_ E], (Ho' T' H) as [_ E']. congruence.
Qed.

Lemma writes_only_read {A} T (c : M A) : read_only c → writes_only T c.
Proof. intros Hc st. rewrite Hc. apply grows_at_refl. Qed.

Lemma writes_only_raise {A} T e : writes_only T (raise e : M A).
Proof. intros st. apply grows_at_refl. Qed.

Lemma writes_only_get_keys T T' : writes_only T (get_keys T').
Proof. intros st. apply grows_at_refl. Qed.

Lemma writes_only_field {A} T (f : option A) : writes_only T (field f).
Proof. intros st. destruct f; apply grows_at_refl. Qed.

Lemma writes_only_set_data T l : writes_only T (set_data T l).
Proof.
  intros st. unfold set_data. simpl. repeat split; simpl; try done.
  - by rewrite lookup_insert_ne.
  - intros _. rewrite lookup_insert_eq. eauto.
Qed.

Lemma writes_only_set_keys T ks : writes_only T (set_keys T ks).
Proof.
  intros st. unfold set_keys. simpl. repeat split; simpl; try done.
  - by rewrite lookup_insert_ne.
  - intros _. rewrite lookup_insert_eq. eauto.
Qed.

Lemma writes_only_ensure_table T : writes_only T (ensure_table T).
Proof.
  intros st. unfold ensure_table.
  destruct (data st !! T); [apply grows_at_refl|apply writes_only_set_data].
Qed.

Lemma writes_only_bind {A B} T (c : M A) (k : A → M B) :
  writes_only T c → (∀ a, writes_only T (k a)) → writes_only T (bind c k).
Proof.
  intros Hc Hk st. unfold bind. specialize (Hc st).
  destruct (c st) as [st' [a|e]]; simpl in *; [|done].
  eapply grows_at_trans; [done|apply Hk].
Qed.

Ltac solve_writes :=
  repeat first
    [ apply writes_only_raise | apply writes_only_get_keys
    | apply writes_only_field | apply writes_only_set_data
    | apply writes_only_set_keys | apply writes_only_ensure_table
    | apply writes_only_read; solve_read; fail
    | apply writes_only_bind; [|intros]
    | progress case_match ].

Lemma writes_only_merge_item T tbl i item d : writes_only T (merge_item T tbl i item d).
Proof. unfold merge_item. solve_writes. Qed.

Lemma writes_only_update_loop T rows : writes_only T (update_loop T rows).
Proof.
  induction rows as [|d rows IH]; simpl; solve_writes;
    first [apply writes_only_merge_item | apply IH].
Qed.

Lemma writes_only_delete_loop T rows : writes_only T (delete_loop T rows).
Proof. induction rows as [|d rows IH]; simpl; solve_writes; apply IH. Qed.

Lemma writes_only_extend_table T m : writes_only T (extend_table T m).
Proof. unfold extend_table. solve_writes. Qed.

Lemma writes_only_try_body m : writes_only (m_table m) (try_body m).
Proof.
  unfold try_body. solve_writes;
    first [apply writes_only_extend_table | apply writes_only_update_loop
          | apply writes_only_delete_loop].
Qed.

Lemma on_message_store c m : c_store (on_message c m) = fst (try_body m (c_store c)).
Proof. unfold on_message. by destruct (try_body m (c_store c)) as [st [[]|e]]. Qed.

Lemma on_message_grows c m :
  grows_at (m_table m) (c_store c) (c_store (on_message c m)).
Proof. rewrite on_message_store. apply writes_only_try_body. Qed.

Lemma grows_at_data T T' st st' :
  grows_at T st st' → is_Some (data st !! T') → is_Some (data st' !! T').
Proof.
  intros (Ho & Hd & _) H. destruct (decide (T' = T)) as [->|Hne]; [by auto|].
  by destruct (Ho T' Hne) as [-> _].
Qed.

Lemma grows_at_keys T T' st st' :
  grows_at T st st' → is_Some (keys st !! T') → is_Some (keys st' !! T').
Proof.
  intros (Ho & _ & Hk) H. destruct (decide (T' = T)) as [->|Hne]; [by auto|].
  by destruct (Ho T' Hne) as [_ ->].
Qed.

Lemma deliver_keeps_tables c ms T :
  (is_Some (data (c_store c) !! T) → is_Some (data (c_store (deliver c ms)) !! T))
  ∧ (is_Some (keys (c_store c) !! T) → is_Some (keys (c_store (deliver c ms)) !! T)).
Proof.
  revert c. induction ms as [|m ms IH]; intros c; [done|].
  unfold deliver in *. simpl. destruct (IH (on_message c m)) as [Hd Hk].
  pose proof (on_message_grows c m) as Hg.
  split; intros H; [apply Hd|apply Hk];
    eauto using grows_at_data, grows_at_keys.
Qed.

(** X1.  No message removes a table or a key set: whatever messages are
    delivered, the tables and key sets present before are present after.
    So the conditions awaited by [__push_account] and [__push_symbol]
    stay true once they are. *)
Theorem tables_are_never_dropped c ms :
  dom (data (c_store c)) ⊆ dom (data (c_store (deliver c ms)))
  ∧ dom (keys (c_store c)) ⊆ dom (keys (c_store (deliver c ms)))
  ∧ (account_ready (c_store c) → account_ready (c_store (deliver c ms)))
  ∧ (symbol_ready (c_store c) → symbol_ready (c_store (deliver c ms))).
Proof.
  assert (dom (data (c_store c)) ⊆ dom (data (c_store (deliver c ms)))) as Hd.
  { intros T HT%elem_of_dom. apply elem_of_dom.
    by apply (deliver_keeps_tables c ms T). }
  split; [done|]. split.
  - intros T HT%elem_of_dom. apply elem_of_dom.
    by apply (deliver_keeps_tables c ms T).
  - unfold account_ready, symbol_ready. split; intros H; by etrans.
Qed.

(** X2.  A message writes to the table it names and to nothing else: the
    rows and the key set of every other table are the same after it,
    whatever its action and whether or not it fails. *)
Theorem other_tables_untouched c m T :
  T ≠ m_table m →
  data (c_store (on_message c m)) !! T = data (c_store c) !! T
  ∧ keys (c_store (on_message c m)) !! T = keys (c_store c) !! T.
Proof. intros HT. by destruct (on_message_grows c m) as [Ho _]; apply Ho. Qed.

(** X3.  Every message that has a non-empty action and is no
    subscription acknowledgement leaves its table in the store, be the
    action unknown, the data missing or the rows unmatched. *)
Theorem action_creates_table c m a :
  m_subscribe m = None → m_action m = Some a → a ≠ "" →
  is_Some (data (c_store (on_message c m)) !! m_table m).
Proof.
  intros Hs Ha Hne. rewrite on_message_store.
  unfold try_body. rewrite Hs, Ha, bool_decide_eq_false_2 by done.
  unfold bind at 1. rewrite ensure_table_eq.
  match goal with |- is_Some (data (fst (?k ?st)) !! _) =>
    assert (writes_only (m_table m) k) as Hw end.
  { solve_writes;
      first [apply writes_only_extend_table | apply writes_only_update_loop
            | apply writes_only_delete_loop]. }
  destruct (Hw (ensured (c_store c) (m_table m))) as (_ & Hd & _).
  apply Hd, ensured_is_Some.
Qed.

(** ** Messages that fail half-way, and messages that compose *)

Lemma ensured_id T st : is_Some (data st !! T) → ensured st T = st.
Proof. unfold ensured, ensure_table. by intros [l ->]. Qed.

Lemma on_message_insert c T rows kz :
  on_message c (event T "insert" rows kz) =
  Client (with_rows (c_store c) T (rows_of (c_store c) T ++ rows))
         (c_errors c) (c_open c).
Proof.
  unfold on_message, try_body, event. simpl. unfold bind.
  rewrite ensure_table_eq. unfold extend_table, bind, get_data.
  rewrite ensured_data. simpl.
  pose proof (ensured_with_rows T (c_store c) (rows_of (c_store c) T ++ rows)) as H.
  unfold with_rows in *. by rewrite H.
Qed.

(** X4.  An [update] or [delete] message with at least one row, for a
    table that has no key set yet (no [partial] was applied to it): the
    lookup of the key set raises [KeyError], which is logged; the store is
    left with the table created, empty if it was not there. *)
Theorem update_before_partial_logs_KeyError c T d rows kz :
  keys (c_store c) !! T = None →
  on_message c (event T "update" (d :: rows) kz)
  = Client (ensured (c_store c) T) (c_errors c ++ [KeyError]) (c_open c)
  ∧ on_message c (event T "delete" (d :: rows) kz)
    = Client (ensured (c_store c) T) (c_errors c ++ [KeyError]) (c_open c).
Proof.
  intros Hk. unfold on_message.
  rewrite try_body_update, try_body_delete, update_loop_cons, delete_loop_cons.
  rewrite ensured_keys, Hk. simpl.
  by destruct (data (ensured (c_store c) T) !! T).
Qed.

Lemma update_before_partial_logs_KeyError_witness :
  keys (c_store fresh_client) !! Some "margin" = None
  ∧ on_message fresh_client (event (Some "margin") "update" (row_a1 :: []) None)
    = Client (ensured (c_store fresh_client) (Some "margin"))
        (c_errors fresh_client ++ [KeyError]) (c_open fresh_client)
  ∧ on_message fresh_client (event (Some "margin") "delete" (row_a1 :: []) None)
    = Client (ensured (c_store fresh_client) (Some "margin"))
        (c_errors fresh_client ++ [KeyError]) (c_open fresh_client).
Proof.
  assert (keys (c_store fresh_client) !! Some "margin" = None) as H1
    by (vm_compute; reflexivity).
  exact (conj H1
    (update_before_partial_logs_KeyError fresh_client (Some "margin") row_a1 [] None H1)).
Defined.

(** The account tables can all be present and empty: three early updates
    satisfy the condition awaited by [__push_account], and [funds] then
    raises [IndexError]. *)
Example ready_on_empty_tables :
  account_ready (c_store primed_by_updates)
  ∧ rows_of (c_store primed_by_updates) (Some "margin") = []
  ∧ c_errors primed_by_updates = [KeyError; KeyError; KeyError]
  ∧ snd (funds (c_store primed_by_updates)) = Raise IndexError.
Proof.
  split; [|repeat split; by vm_compute].
  unfold account_ready. apply (bool_decide_unpack _). by vm_compute.
Qed.

(** X5.  A [partial] message without the ['keys'] field is applied by
    half: its rows are appended, then the missing field raises
    [KeyError], which is logged, and the key set of the table stays what
    it was. *)
Theorem partial_without_keys_appends_rows c T rows :
  on_message c (partial_without_keys T rows)
  = Client (with_rows (c_store c) T (rows_of (c_store c) T ++ rows))
      (c_errors c ++ [KeyError]) (c_open c).
Proof.
  unfold on_message, try_body, partial_without_keys. simpl. unfold bind.
  rewrite ensure_table_eq. unfold extend_table, bind, get_data.
  rewrite ensured_data. simpl.
  pose proof (ensured_with_rows T (c_store c) (rows_of (c_store c) T ++ rows)) as H.
  unfold with_rows in *. by rewrite H.
Qed.

Lemma find_from_app i ks tbl post d x :
  find_from i ks tbl d = Ok (Some x) → find_from i ks (tbl ++ post) d = Ok (Some x).
Proof.
  revert i. induction tbl as [|r tbl IH]; intros i; simpl; [done|].
  destruct (keys_loop ks r d true) as [[]|]; simpl; [done| |done]. apply IH.
Qed.

(** X6.  Inserting rows does not change which row an [update] or
    [delete] datum addresses: the rows are appended, so a datum that found
    a row before the insert finds the same row, at the same position,
    after it, whatever was inserted. *)
Theorem insert_keeps_addressing c T rows kz ks d x :
  findItemByKeys ks (rows_of (c_store c) T) d = Ok (Some x) →
  findItemByKeys ks (rows_of (c_store (on_message c (event T "insert" rows kz))) T) d
  = Ok (Some x).
Proof.
  intros H. rewrite on_message_insert. simpl. rewrite rows_of_with_rows.
  by apply find_from_app.
Qed.

Lemma insert_keeps_addressing_witness :
  findItemByKeys ["symbol"; "level"] (rows_of (c_store book_client) book) row_X2
  = Ok (Some (1%nat, level_X2))
  ∧ findItemByKeys ["symbol"; "level"]
      (rows_of (c_store (on_message book_client (event book "insert" [row_X2; ∅] None))) book)
      row_X2
    = Ok (Some (1%nat, level_X2)).
Proof.
  assert (findItemByKeys ["symbol"; "level"] (rows_of (c_store book_client) book) row_X2
          = Ok (Some (1%nat, level_X2))) as H1 by (vm_compute; reflexivity).
  exact (conj H1
    (insert_keeps_addressing book_client book [row_X2; ∅] None ["symbol"; "level"]
       row_X2 (1%nat, level_X2) H1)).
Defined.

(** ** Row counts *)

Lemma length_delete_le (l : list row) i : (length (delete i l) ≤ length l)%nat.
Proof.
  revert i. induction l as [|x l IH]; intros [|i]; simpl; try lia.
  specialize (IH i). lia.
Qed.

Lemma merged_table_length_le T tbl i item d :
  (length (merged_table T tbl i item d) ≤ length tbl)%nat.
Proof.
  unfold merged_table. destruct (evicts _ _).
  - apply length_delete_le.
  - by rewrite length_insert.
Qed.

Lemma update_loop_length_le T rows st :
  (length (rows_of (fst (update_loop T rows st)) T) ≤ length (rows_of st T))%nat.
Proof.
  revert st. induction rows as [|d rows IH]; intros st; [done|].
  rewrite update_loop_cons.
  destruct (keys st !! T) as [ks|]; [|by destruct (data st !! T)].
  destruct (data st !! T) as [tbl|] eqn:Hd; [|done].
  destruct (findItemByKeys ks tbl d) as [[[i item]|]|e] eqn:Hf; try done.
  case_bool_decide; [done|].
  destruct (merge_item_found ks T tbl i item d st Hf) as [r ->].
  assert (length (rows_of (with_rows st T (merged_table T tbl i item d)) T)
          ≤ length (rows_of st T))%nat as Hle.
  { rewrite rows_of_with_rows. unfold rows_of. rewrite Hd. simpl.
    apply merged_table_length_le. }
  destruct r; simpl; [|done]. etrans; [apply IH|done].
Qed.

Lemma update_loop_length_eq T rows st :
  T ≠ Some "order" →
  length (rows_of (fst (update_loop T rows st)) T) = length (rows_of st T).
Proof.
  intros HT. revert st. induction rows as [|d rows IH]; intros st; [done|].
  rewrite update_loop_cons.
  destruct (keys st !! T) as [ks|]; [|by destruct (data st !! T)].
  destruct (data st !! T) as [tbl|] eqn:Hd; [|done].
  destruct (findItemByKeys ks tbl d) as [[[i item]|]|e] eqn:Hf; try done.
  case_bool_decide; [done|].
  rewrite merge_item_plain by done. rewrite IH, rows_of_with_rows.
  unfold rows_of. rewrite Hd. simpl. by rewrite length_insert.
Qed.

Lemma delete_loop_length T rows st st' :
  delete_loop T rows st = (st', Ok tt) →
  (length (rows_of st' T) + length rows = length (rows_of st T))%nat.
Proof.
  revert st. induction rows as [|d rows IH]; intros st.
  - intros [= <-]. simpl. lia.
  - rewrite delete_loop_cons.
    destruct (keys st !! T) as [ks|]; [|by destruct (data st !! T)].
    destruct (data st !! T) as [tbl|] eqn:Hd; [|done].
    destruct (findItemByKeys ks tbl d) as [[[i item]|]|e] eqn:Hf; try done.
    destruct (list_remove item tbl) as [tbl'|] eqn:Hr; [|done].
    intros H%IH. rewrite rows_of_with_rows in H.
    apply list_remove_in in Hr as (j & Hj & ->).
    rewrite length_delete in H by (by apply lookup_lt_is_Some).
    unfold rows_of in *. rewrite Hd. simpl in *. lia.
Qed.

Lemma delete_loop_length_le T rows st :
  (length (rows_of (fst (delete_loop T rows st)) T) ≤ length (rows_of st T))%nat.
Proof.
  revert st. induction rows as [|d rows IH]; intros st; [done|].
  rewrite delete_loop_cons.
  destruct (keys st !! T) as [ks|]; [|by destruct (data st !! T)].
  destruct (data st !! T) as [tbl|] eqn:Hd; [|done].
  destruct (findItemByKeys ks tbl d) as [[[i item]|]|e] eqn:Hf; try done.
  destruct (list_remove item tbl) as [tbl'|] eqn:Hr; [|done].
  etrans; [apply IH|]. rewrite rows_of_with_rows.
  apply list_remove_in in Hr as (j & Hj & ->).
  unfold rows_of. rewrite Hd. simpl. apply length_delete_le.
Qed.

(** X7.  An [update] or a [delete] message never adds a row, and an
    [update] for a table other than [order] keeps the number of rows
    whatever its rows are. *)
Theorem update_and_delete_add_no_rows c T rows kz :
  (length (rows_of (c_store (on_message c (event T "update" rows kz))) T)
     ≤ length (rows_of (c_store c) T))%nat
  ∧ (length (rows_of (c_store (on_message c (event T "delete" rows kz))) T)
     ≤ length (rows_of (c_store c) T))%nat
  ∧ (T ≠ Some "order" →
     length (rows_of (c_store (on_message c (event T "update" rows kz))) T)
     = length (rows_of (c_store c) T)).
Proof.
  rewrite on_message_update_store, on_message_delete_store.
  rewrite <- (rows_of_ensured (c_store c) T).
  split; [apply update_loop_length_le|]. split; [apply delete_loop_length_le|].
  intros HT. by apply update_loop_length_eq.
Qed.

(** X8.  A [delete] message that is handled without an exception has
    removed exactly one row for each of its rows. *)
Theorem successful_delete_removes_each_row c T rows kz st' :
  try_body (event T "delete" rows kz) (c_store c) = (st', Ok tt) →
  (length (rows_of st' T) + length rows = length (rows_of (c_store c) T))%nat.
Proof.
  rewrite try_body_delete. intros H%delete_loop_length.
  by rewrite rows_of_ensured in H.
Qed.

Lemma successful_delete_removes_each_row_witness :
  let st' := with_rows book_store book [level_Y1] in
  try_body (event book "delete" [row_X2; row_X1] None) (c_store book_client)
  = (st', Ok tt)
  ∧ (length (rows_of st' book) + length [row_X2; row_X1]
     = length (rows_of (c_store book_client) book))%nat.
Proof.
  intros st'.
  assert (try_body (event book "delete" [row_X2; row_X1] None) (c_store book_client)
          = (st', Ok tt)) as H1 by (vm_compute; reflexivity).
  exact (conj H1
    (successful_delete_removes_each_row book_client book [row_X2; row_X1] None st' H1)).
Defined.

(** X9.  The error log only grows, by at most one entry for each
    message, and no message closes the transport. *)
Theorem deliver_log_grows c ms :
  c_errors c `prefix_of` c_errors (deliver c ms)
  ∧ (length (c_errors (deliver c ms)) ≤ length (c_errors c) + length ms)%nat
  ∧ c_open (deliver c ms) = c_open c.
Proof.
  revert c. induction ms as [|m ms IH]; intros c.
  - simpl. repeat split; [done|lia].
  - unfold deliver in *. simpl. destruct (IH (on_message c m)) as (Hp & Hl & Ho).
    assert (c_open (on_message c m) = c_open c
            ∧ (c_errors (on_message c m) = c_errors c
               ∨ ∃ e, c_errors (on_message c m) = c_errors c ++ [e])) as [Ho' He].
    { unfold on_message. destruct (try_body m (c_store c)) as [st [[]|e]]; simpl; eauto. }
    rewrite Ho, Ho'. split; [|split; [|done]].
    + etrans; [|exact Hp]. destruct He as [->|[e ->]]; [done|by apply prefix_app_r].
    + destruct He as [He|[e He]]; rewrite He in Hl; [lia|].
      rewrite length_app in Hl. simpl in *. lia.
Qed.

(** ** Updating twice, and inserting then deleting *)

Lemma keys_loop_has_keys ks item d m b :
  keys_loop ks item d m = Ok b → has_keys ks item ∧ has_keys ks d.
Proof.
  revert m. induction ks as [|k ks IH]; intros m; simpl.
  - intros _. split; constructor.
  - unfold getitem. destruct (item !! k) as [a|] eqn:Ha; simpl; [|done].
    destruct (d !! k) as [b'|] eqn:Hb; simpl; [|done].
    intros [Hi Hd]%IH. split; constructor; eauto.
Qed.

Lemma keys_loop_missing ks item d m :
  ¬ has_keys ks item ∨ ¬ has_keys ks d → keys_loop ks item d m = Raise KeyError.
Proof.
  revert m. induction ks as [|k ks IH]; intros m Hn; simpl.
  - destruct Hn as [Hn|Hn]; destruct Hn; constructor.
  - unfold getitem. destruct (item !! k) as [a|] eqn:Ha; simpl; [|done].
    destruct (d !! k) as [b|] eqn:Hb; simpl; [|done].
    apply IH. destruct Hn as [Hn|Hn]; [left|right];
      intros H; apply Hn; constructor; eauto.
Qed.


Lemma find_from_insert j n ks (tbl : list row) d item m :
  find_from j ks tbl d = Ok (Some ((j + n)%nat, item)) →
  keys_loop ks m d true = Ok true →
  find_from j ks (<[n := m]> tbl) d = Ok (Some ((j + n)%nat, m)).
Proof.
  revert j n. induction tbl as [|r tbl IH]; intros j n; simpl; [done|].
  destruct (keys_loop ks r d true) as [[]|] eqn:Hr; simpl; [| |done].
  - intros [= Hj <-] Hm. assert (n = 0%nat) as -> by lia. simpl.
    rewrite Hm. simpl. by rewrite Nat.add_0_r.
  - intros Hf Hm. destruct (find_from_some _ _ _ _ _ _ Hf) as (n' & Hn & _).
    assert (n = S n') as -> by lia. simpl. rewrite Hr. simpl.
    replace (j + S n')%nat with (S j + n')%nat in * by lia. by apply IH.
Qed.




Lemma update_loop_single_idem T d st :
  T ≠ Some "order" →
  fst (update_loop T [d] (fst (update_loop T [d] st))) = fst (update_loop T [d] st).
Proof.
  intros HT. rewrite (update_loop_cons T d [] st).
  destruct (keys st !! T) as [ks|] eqn:Hk.
  2:{ destruct (data st !! T) eqn:Hd; cbn [fst]; by rewrite update_loop_cons, Hk, ?Hd. }
  destruct (data st !! T) as [tbl|] eqn:Hd.
  2:{ cbn [fst]. by rewrite update_loop_cons, Hk, Hd. }
  destruct (findItemByKeys ks tbl d) as [[[i item]|]|e] eqn:Hf.
  2,3: cbn [fst]; by rewrite update_loop_cons, Hk, Hd, Hf.
  case_bool_decide as He.
  { cbn [fst]. by rewrite update_loop_cons, Hk, Hd, Hf, bool_decide_eq_true_2. }
  rewrite merge_item_plain by done.
  change (update_loop T [] ?s) with (s, Ok Completed). cbn [fst].
  rewrite update_loop_cons. unfold with_rows at 1 2. cbn [keys data].
  rewrite Hk, lookup_insert_eq.
  assert (keys_loop ks (d ∪ item) d true = Ok true) as Hm.
  { destruct (find_from_some _ _ _ _ _ _ Hf) as (n & _ & _ & Hmi & _).
    assert (has_keys ks item ∧ has_keys ks d) as [Hi Hkd].
    { clear -Hmi. unfold matchesb in Hmi. split; apply Forall_forall;
        intros k Hk%list_elem_of_In; eapply forallb_forall in Hmi; try done;
        unfold agree in Hmi; destruct (item !! k), (d !! k); by eauto. }
    rewrite keys_loop_total, matchesb_merge; try done.
    apply Forall_forall. intros k Hkk. eapply Forall_forall in Hkd as [b Hb]; [|done].
    exists b. by apply lookup_union_Some_l. }
  unfold findItemByKeys in *.
  rewrite (find_from_insert 0 i ks tbl d item (d ∪ item)) by done.
  rewrite bool_decide_eq_false_2.
  2:{ intros Hu. apply He. apply map_empty. intros k.
      apply (f_equal (.!! k)) in Hu. rewrite lookup_empty in Hu.
      by apply lookup_union_None in Hu as [_ ?]. }
  rewrite merge_item_plain by done.
  change (update_loop T [] ?s) with (s, Ok Completed). cbn [fst].
  fold (with_rows st T (<[i:=d ∪ item]> tbl)).
  rewrite with_rows_twice, list_insert_insert_eq.
  by rewrite (assoc_L (∪)), (idemp_L (∪)).
Qed.

(** X10.  On a table other than [order], a one-row [update] message has
    the same effect on the store delivered twice as delivered once. *)
Theorem update_twice_is_update_once c T d kz :
  T ≠ Some "order" →
  c_store (on_message (on_message c (event T "update" [d] kz)) (event T "update" [d] kz))
  = c_store (on_message c (event T "update" [d] kz)).
Proof.
  intros HT. rewrite !on_message_update_store.
  set (st0 := ensured (c_store c) T).
  rewrite (ensured_id T (fst (update_loop T [d] st0))).
  - by apply update_loop_single_idem.
  - destruct (update_loop T [d] st0) as [st1 r] eqn:Hu.
    by destruct (update_loop_inv _ _ _ _ _ Hu (ensured_is_Some _ _)).
Qed.

Lemma update_twice_is_update_once_witness :
  book ≠ Some "order"
  ∧ c_store (on_message (on_message book_client (event book "update" [row_X1] None))
               (event book "update" [row_X1] None))
    = c_store (on_message book_client (event book "update" [row_X1] None)).
Proof.
  assert (book ≠ Some "order") as H1 by (apply (bool_decide_unpack _); vm_compute; exact I).
  exact (conj H1 (update_twice_is_update_once book_client book row_X1 None H1)).
Defined.



(** ** Missing key fields *)

Lemma has_keysb_complete ks rows : Forall (has_keys ks) rows → has_keysb ks rows = true.
Proof.
  unfold has_keysb, has_keys. intros H.
  apply forallb_forall. intros r Hr%list_elem_of_In.
  eapply Forall_forall in H; [|done].
  apply forallb_forall. intros k Hk%list_elem_of_In.
  eapply Forall_forall in H; [|done]. by apply bool_decide_eq_true.
Qed.

Lemma not_has_keys ks r : has_keysb ks [r] = false → ¬ has_keys ks r.
Proof.
  intros Hb H. rewrite has_keysb_complete in Hb; [done|]. by constructor.
Qed.

(** X12.  [findItemByKeys] reads every key field of the datum and of
    each row it visits, so on a table whose first row or whose datum
    lacks a key field it raises [KeyError] instead of returning.  An
    [update] or [delete] message with such a row is therefore not dropped
    quietly: the handler logs the [KeyError] and leaves the store as it
    was. *)
Theorem missing_key_field_raises c T ks r tbl d rows kz :
  ¬ has_keys ks r ∨ ¬ has_keys ks d →
  keys (c_store c) !! T = Some ks →
  data (c_store c) !! T = Some (r :: tbl) →
  findItemByKeys ks (r :: tbl) d = Raise KeyError
  ∧ on_message c (event T "update" (d :: rows) kz)
    = Client (c_store c) (c_errors c ++ [KeyError]) (c_open c)
  ∧ on_message c (event T "delete" (d :: rows) kz)
    = Client (c_store c) (c_errors c ++ [KeyError]) (c_open c).
Proof.
  intros Hn Hk Hd.
  assert (findItemByKeys ks (r :: tbl) d = Raise KeyError) as Hf.
  { unfold findItemByKeys. simpl. by rewrite keys_loop_missing. }
  split; [done|]. unfold on_message.
  rewrite try_body_update, try_body_delete, ensured_id by eauto.
  by rewrite update_loop_cons, delete_loop_cons, Hk, Hd, Hf.
Qed.

Lemma missing_key_field_raises_witness :
  let ks := ["symbol"; "level"] in
  (¬ has_keys ks level_X1 ∨ ¬ has_keys ks row_a1)
  ∧ keys (c_store book_client) !! book = Some ks
  ∧ data (c_store book_client) !! book = Some (level_X1 :: [level_X2; level_Y1])
  ∧ findItemByKeys ks (level_X1 :: [level_X2; level_Y1]) row_a1 = Raise KeyError
  ∧ on_message book_client (event book "update" (row_a1 :: [row_X1]) None)
    = Client (c_store book_client) (c_errors book_client ++ [KeyError])
        (c_open book_client)
  ∧ on_message book_client (event book "delete" (row_a1 :: [row_X1]) None)
    = Client (c_store book_client) (c_errors book_client ++ [KeyError])
        (c_open book_client).
Proof.
  intros ks.
  assert (¬ has_keys ks level_X1 ∨ ¬ has_keys ks row_a1) as H1
    by (right; apply not_has_keys; vm_compute; reflexivity).
  assert (keys (c_store book_client) !! book = Some ks) as H2
    by (vm_compute; reflexivity).
  assert (data (c_store book_client) !! book = Some (level_X1 :: [level_X2; level_Y1]))
    as H3 by (vm_compute; reflexivity).
  exact (conj H1 (conj H2 (conj H3
    (missing_key_field_raises book_client book ks level_X1 [level_X2; level_Y1]
       row_a1 [row_X1] None H1 H2 H3)))).
Defined.

(** ** More on the query surface *)

(** X13.  A second call of [get_instrument] returns what the first call
    returned and leaves the store as the first call left it. *)
Theorem get_instrument_twice st :
  get_instrument (fst (get_instrument st))
  = (fst (get_instrument st), snd (get_instrument st)).
Proof.
  rewrite (get_instrument_eq st).
  destruct (data st !! Some "instrument") as [[|ins tbl]|] eqn:Hd; cbn [fst snd];
    [by rewrite get_instrument_eq, Hd..| |by rewrite get_instrument_eq, Hd].
  destruct (ins !! "tickSize") as [v|] eqn:Hv; cbn [fst snd];
    [|by rewrite get_instrument_eq, Hd, Hv].
  destruct (tick_log v) as [k|e] eqn:Hk; cbn [fst snd];
    [|by rewrite get_instrument_eq, Hd, Hv, Hk].
  rewrite get_instrument_eq. unfold with_rows at 1. cbn [data].
  rewrite lookup_insert_eq, lookup_insert_ne, Hv, Hk by done.
  by rewrite with_rows_twice, insert_insert_eq.
Qed.

(** X14.  A failing [get_instrument] writes nothing: the store is the
    one it was called on. *)
Theorem get_instrument_fails_cleanly st e :
  snd (get_instrument st) = Raise e → fst (get_instrument st) = st.
Proof.
  rewrite get_instrument_eq.
  destruct (data st !! Some "instrument") as [[|ins tbl]|]; try done.
  destruct (ins !! "tickSize") as [v|]; [|done].
  by destruct (tick_log v).
Qed.

Lemma get_instrument_fails_cleanly_witness :
  snd (get_instrument empty_store) = Raise KeyError
  ∧ fst (get_instrument empty_store) = empty_store.
Proof.
  assert (snd (get_instrument empty_store) = Raise KeyError) as H1
    by (vm_compute; reflexivity).
  exact (conj H1 (get_instrument_fails_cleanly empty_store KeyError H1)).
Defined.

(** X15.  A tick size that is zero or negative makes [get_instrument]
    raise [ValueError] (the domain error of [log10]), with no [tickLog]
    written. *)
Theorem get_instrument_rejects_nonpositive_tick st ins tbl v q :
  data st !! Some "instrument" = Some (ins :: tbl) →
  ins !! "tickSize" = Some v →
  num_of v = Some q → (q <= 0)%Q →
  get_instrument st = (st, Raise ValueError).
Proof.
  intros Hd Hv Hn Hq. rewrite get_instrument_eq, Hd, Hv. unfold tick_log.
  rewrite Hn. by apply Qle_bool_iff in Hq as ->.
Qed.

Lemma get_instrument_rejects_nonpositive_tick_witness :
  data zero_tick_store !! Some "instrument" = Some ({[ "tickSize" := VInt 0 ]} :: [])
  ∧ ({[ "tickSize" := VInt 0 ]} : row) !! "tickSize" = Some (VInt 0)
  ∧ num_of (VInt 0) = Some (inject_Z 0)
  ∧ (inject_Z 0 <= 0)%Q
  ∧ get_instrument zero_tick_store = (zero_tick_store, Raise ValueError).
Proof.
  assert (data zero_tick_store !! Some "instrument"
          = Some ({[ "tickSize" := VInt 0 ]} :: [])) as H1 by (vm_compute; reflexivity).
  assert (({[ "tickSize" := VInt 0 ]} : row) !! "tickSize" = Some (VInt 0)) as H2
    by (vm_compute; reflexivity).
  assert (num_of (VInt 0) = Some (inject_Z 0)) as H3 by reflexivity.
  assert (inject_Z 0 <= 0)%Q as H4 by (vm_compute; discriminate).
  exact (conj H1 (conj H2 (conj H3 (conj H4
    (get_instrument_rejects_nonpositive_tick zero_tick_store _ [] (VInt 0) (inject_Z 0)
       H1 H2 H3 H4))))).
Defined.

Lemma py_float_ok float_of_str v :
  float_ok v = true → ∃ x, py_float float_of_str (or0 v) = Ok x.
Proof.
  unfold float_ok. destruct (or0 v); simpl; try done; by eexists.
Qed.

(** X16.  [get_ticker] reads [tickLog] from the stored instrument row,
    which only [get_instrument] writes: on a store whose last quote and
    trade carry prices that [float] accepts (floats, booleans, [None],
    or integers below the range of the doubles) but whose instrument row
    has no [tickLog], it raises [KeyError]. *)
Theorem get_ticker_needs_tickLog float_of_str st q qs t ts ins tbl p b a :
  data st !! Some "quote" = Some qs → last qs = Some q →
  data st !! Some "trade" = Some ts → last ts = Some t →
  t !! "price" = Some p → q !! "bidPrice" = Some b → q !! "askPrice" = Some a →
  float_ok p = true → float_ok b = true → float_ok a = true →
  data st !! Some "instrument" = Some (ins :: tbl) →
  ins !! "tickLog" = None →
  get_ticker float_of_str st = (st, Raise KeyError).
Proof.
  intros Hq Hlq Ht Hlt Hp Hb Ha Hnp Hnb Hna Hi Hl.
  unfold get_ticker, bind, get_data, lift, last_row, first_row, getitem.
  rewrite Hq, Ht. simpl. rewrite Hlq, Hlt, Hp, Hb, Ha.
  destruct (py_float_ok float_of_str b Hnb) as [xb ->].
  destruct (py_float_ok float_of_str a Hna) as [xa ->].
  rewrite Hi. simpl. unfold round_field, getitem.
  destruct (py_float_ok float_of_str p Hnp) as [xp ->]. simpl.
  by rewrite Hl.
Qed.

Lemma get_ticker_needs_tickLog_witness :
  data market_store !! Some "quote" = Some [quote_100]
  ∧ last [quote_100] = Some quote_100
  ∧ data market_store !! Some "trade" = Some [trade_100]
  ∧ last [trade_100] = Some trade_100
  ∧ trade_100 !! "price" = Some (VFloat 100.37)
  ∧ quote_100 !! "bidPrice" = Some (VFloat 100.0)
  ∧ quote_100 !! "askPrice" = Some (VFloat 100.5)
  ∧ float_ok (VFloat 100.37) = true ∧ float_ok (VFloat 100.0) = true
  ∧ float_ok (VFloat 100.5) = true
  ∧ data market_store !! Some "instrument" = Some (instrument_half :: [])
  ∧ instrument_half !! "tickLog" = None
  ∧ get_ticker float_of_str0 market_store = (market_store, Raise KeyError).
Proof.
  assert (data market_store !! Some "quote" = Some [quote_100]) as H1
    by (vm_compute; reflexivity).
  assert (last [quote_100] = Some quote_100) as H2 by reflexivity.
  assert (data market_store !! Some "trade" = Some [trade_100]) as H3
    by (vm_compute; reflexivity).
  assert (last [trade_100] = Some trade_100) as H4 by reflexivity.
  assert (trade_100 !! "price" = Some (VFloat 100.37)) as H5 by (vm_compute; reflexivity).
  assert (quote_100 !! "bidPrice" = Some (VFloat 100.0)) as H6 by (vm_compute; reflexivity).
  assert (quote_100 !! "askPrice" = Some (VFloat 100.5)) as H7 by (vm_compute; reflexivity).
  assert (float_ok (VFloat 100.37) = true) as H8 by reflexivity.
  assert (float_ok (VFloat 100.0) = true) as H9 by reflexivity.
  assert (float_ok (VFloat 100.5) = true) as H10 by reflexivity.
  assert (data market_store !! Some "instrument" = Some (instrument_half :: [])) as H11
    by (vm_compute; reflexivity).
  assert (instrument_half !! "tickLog" = None) as H12 by (vm_compute; reflexivity).
  exact (conj H1 (conj H2 (conj H3 (conj H4 (conj H5 (conj H6 (conj H7 (conj H8
    (conj H9 (conj H10 (conj H11 (conj H12
    (get_ticker_needs_tickLog float_of_str0 market_store quote_100 [quote_100]
       trade_100 [trade_100] instrument_half [] _ _ _
       H1 H2 H3 H4 H5 H6 H7 H8 H9 H10 H11 H12))))))))))))).
Defined.

Lemma open_filter_is_filter str_of_float pfx os :
  forallb (order_ok str_of_float pfx) os = true →
  open_filter str_of_float pfx os = Ok (List.filter (is_open str_of_float pfx) os).
Proof.
  induction os as [|o os IH]; simpl; [done|].
  intros [Ho Hos]%andb_true_iff. rewrite IH by done. clear IH.
  unfold order_ok, is_open, getitem in *.
  destruct (o !! "clOrdID") as [c|]; [|done]. simpl.
  destruct (String.prefix pfx (py_str str_of_float c)); simpl.
  - destruct (o !! "leavesQty") as [lq|]; [|done]. simpl.
    apply bool_decide_eq_true in Ho as [x Hx]. unfold py_gt0. rewrite Hx. simpl.
    by destruct (Qle_bool x 0).
  - by destruct (o !! "leavesQty").
Qed.

(** X17.  When every order has a ['clOrdID'] and every order whose
    identifier starts with the prefix has a number as ['leavesQty'],
    [open_orders] returns, in table order, exactly the orders with the
    prefix and a positive ['leavesQty'].  Orders without the prefix need
    no ['leavesQty'] at all. *)
Theorem open_orders_is_filter str_of_float pfx st os :
  data st !! Some "order" = Some os →
  forallb (order_ok str_of_float pfx) os = true →
  open_orders str_of_float pfx st
  = (st, Ok (List.filter (is_open str_of_float pfx) os)).
Proof.
  intros Hd Hok. unfold open_orders, bind, get_data, lift. rewrite Hd.
  by rewrite open_filter_is_filter.
Qed.

Lemma open_orders_is_filter_witness :
  let os := [order_bot_1; order_bot_2; order_other_1; order_other_2] in
  data mixed_orders !! Some "order" = Some os
  ∧ forallb (order_ok str_of_float0 "bot") os = true
  ∧ open_orders str_of_float0 "bot" mixed_orders
    = (mixed_orders, Ok (List.filter (is_open str_of_float0 "bot") os)).
Proof.
  intros os.
  assert (data mixed_orders !! Some "order" = Some os) as H1 by (vm_compute; reflexivity).
  assert (forallb (order_ok str_of_float0 "bot") os = true) as H2
    by (vm_compute; reflexivity).
  exact (conj H1 (conj H2 (open_orders_is_filter str_of_float0 "bot" mixed_orders os H1 H2))).
Defined.

(** Of the sample orders only the first is open under the prefix
    ["bot"]; under the prefix ["7"] the order without ['leavesQty'] makes
    the call raise [KeyError]. *)
Example open_orders_example :
  snd (open_orders str_of_float0 "bot" mixed_orders) = Ok [order_bot_1]
  ∧ snd (open_orders str_of_float0 "7" mixed_orders) = Raise KeyError.
Proof. split; by vm_compute. Qed.

Lemma round_field_none float_of_str (ins : row) n :
  ins !! "tickLog" = Some (VInt n) →
  round_field float_of_str ins VNone = Ok (VFloat (round_digits 0 n)).
Proof. intros Hn. unfold round_field, or0, getitem. simpl. by rewrite Hn. Qed.

Lemma half_not_zero a : Qeq_bool a 0 = false → Qeq_bool ((0 + a) / 2) 0 = false.
Proof.
  intros Ha. apply not_true_iff_false. intros H%Qeq_bool_iff.
  apply not_true_iff_false in Ha. apply Ha, Qeq_bool_iff.
  assert (a == 2 * ((0 + a) / 2))%Q as -> by field.
  rewrite H. ring.
Qed.

(** X18.  A quote without a bid ([bidPrice] is [None]) counts as a bid of
    zero.  With a [tickLog] of 0, where rounding a float gives a whole
    number and nothing is lost to the doubles, the ticker has [buy] 0
    and, as [mid], half of the ask rounded to the nearest whole number
    (ties to even), beside the rounded price and ask. *)
Theorem ticker_with_missing_bid float_of_str st q qs t ts ins tbl p a :
  data st !! Some "quote" = Some qs → last qs = Some q →
  data st !! Some "trade" = Some ts → last ts = Some t →
  t !! "price" = Some (VFloat p) → Qeq_bool p 0 = false →
  q !! "bidPrice" = Some VNone →
  q !! "askPrice" = Some (VFloat a) → Qeq_bool a 0 = false →
  data st !! Some "instrument" = Some (ins :: tbl) →
  ins !! "tickLog" = Some (VInt 0) →
  get_ticker float_of_str st
  = (st, Ok {[ "last" := VFloat (round_digits p 0);
               "buy" := VFloat 0;
               "sell" := VFloat (round_digits a 0);
               "mid" := VFloat (round_digits ((0 + a) / 2) 0) ]}).
Proof.
  intros Hq Hlq Ht Hlt Hp Hp0 Hb Ha Ha0 Hi Hl.
  unfold get_ticker, bind, get_data, lift, last_row, first_row, getitem.
  rewrite Hq, Ht. simpl. rewrite Hlq, Hlt, Hp, Hb, Ha.
  change (py_float float_of_str (or0 VNone)) with (Ok 0%Q : res Q).
  assert (py_float float_of_str (or0 (VFloat a)) = Ok a) as ->.
  { unfold or0. simpl. by rewrite Ha0. }
  rewrite Hi. simpl.
  rewrite (round_field_float _ _ p 0), (round_field_none _ _ 0),
    (round_field_float _ _ a 0), (round_field_float _ _ ((0 + a) / 2) 0);
    auto using half_not_zero.
Qed.

Lemma ticker_with_missing_bid_witness :
  data one_sided_store !! Some "quote" = Some [quote_no_bid]
  ∧ last [quote_no_bid] = Some quote_no_bid
  ∧ data one_sided_store !! Some "trade" = Some [trade_100]
  ∧ last [trade_100] = Some trade_100
  ∧ trade_100 !! "price" = Some (VFloat 100.37)
  ∧ Qeq_bool 100.37 0 = false
  ∧ quote_no_bid !! "bidPrice" = Some VNone
  ∧ quote_no_bid !! "askPrice" = Some (VFloat 100.5)
  ∧ Qeq_bool 100.5 0 = false
  ∧ data one_sided_store !! Some "instrument"
    = Some (<["tickLog" := VInt 0]> instrument_half :: [])
  ∧ (<["tickLog" := VInt 0]> instrument_half : row) !! "tickLog" = Some (VInt 0)
  ∧ get_ticker float_of_str0 one_sided_store
    = (one_sided_store,
       Ok {[ "last" := VFloat (round_digits 100.37 0);
             "buy" := VFloat 0;
             "sell" := VFloat (round_digits 100.5 0);
             "mid" := VFloat (round_digits ((0 + 100.5) / 2) 0) ]}).
Proof.
  assert (data one_sided_store !! Some "quote" = Some [quote_no_bid]) as H1
    by (vm_compute; reflexivity).
  assert (last [quote_no_bid] = Some quote_no_bid) as H2 by reflexivity.
  assert (data one_sided_store !! Some "trade" = Some [trade_100]) as H3
    by (vm_compute; reflexivity).
  assert (last [trade_100] = Some trade_100) as H4 by reflexivity.
  assert (trade_100 !! "price" = Some (VFloat 100.37)) as H5 by (vm_compute; reflexivity).
  assert (Qeq_bool 100.37 0 = false) as H6 by reflexivity.
  assert (quote_no_bid !! "bidPrice" = Some VNone) as H7 by (vm_compute; reflexivity).
  assert (quote_no_bid !! "askPrice" = Some (VFloat 100.5)) as H8
    by (vm_compute; reflexivity).
  assert (Qeq_bool 100.5 0 = false) as H9 by reflexivity.
  assert (data one_sided_store !! Some "instrument"
          = Some (<["tickLog" := VInt 0]> instrument_half :: [])) as H10
    by (vm_compute; reflexivity).
  assert ((<["tickLog" := VInt 0]> instrument_half : row) !! "tickLog" = Some (VInt 0))
    as H11 by (vm_compute; reflexivity).
  exact (conj H1 (conj H2 (conj H3 (conj H4 (conj H5 (conj H6 (conj H7 (conj H8
    (conj H9 (conj H10 (conj H11
    (ticker_with_missing_bid float_of_str0 one_sided_store quote_no_bid [quote_no_bid]
       trade_100 [trade_100] _ [] _ _
       H1 H2 H3 H4 H5 H6 H7 H8 H9 H10 H11)))))))))))).
Defined.

(** The one-sided market: the ask 100.5 gives a mid of 50 (50.25
    rounded), a sell of 100 (ties to even), and the bid is 0. *)
Example one_sided_ticker :
  snd (get_ticker float_of_str0 one_sided_store)
  = Ok {[ "last" := VFloat 100; "buy" := VFloat 0;
          "sell" := VFloat 100; "mid" := VFloat 50 ]}.
Proof. by vm_compute. Qed.

(** ** The wait for the connection *)

Lemma connect_loop_no_sock n t seen :
  connect_loop (replicate n NoSock ++ seen) t = connect_loop seen (t - Z.of_nat n).
Proof.
  revert t. induction n as [|n IH]; intros t; simpl.
  - f_equal. lia.
  - rewrite IH. f_equal. lia.
Qed.

Lemma connect_loop_unconnected n t seen :
  (t < 0 ∨ Z.of_nat n ≤ t) →
  connect_loop (replicate n (Sock false) ++ seen) t = connect_loop seen (t - Z.of_nat n).
Proof.
  revert t. induction n as [|n IH]; intros t Ht; simpl.
  - f_equal. lia.
  - destruct (Z.eqb_spec t 0) as [->|Hne]; [lia|]. simpl.
    rewrite IH by lia. f_equal. lia.
Qed.

(** X21.  While the transport has no socket the countdown of [__connect]
    runs but ends nothing; once it has passed zero this way, a socket that
    exists and is not connected is waited for without end as well: after
    [n] tests without a socket, [n] above the time-out, and any number of
    tests with an unconnected socket, the loop is still running. *)
Theorem no_socket_no_timeout n k t :
  t < Z.of_nat n →
  connect_loop (replicate n NoSock ++ replicate k (Sock false)) t
  = StillWaiting (t - Z.of_nat n - Z.of_nat k).
Proof.
  intros Ht. rewrite connect_loop_no_sock.
  rewrite <- (app_nil_r (replicate k _)), connect_loop_unconnected by lia.
  done.
Qed.

Lemma no_socket_no_timeout_witness :
  5 < Z.of_nat 6
  ∧ connect_loop (replicate 6 NoSock ++ replicate 100 (Sock false)) 5
    = StillWaiting (5 - Z.of_nat 6 - Z.of_nat 100).
Proof.
  assert (5 < Z.of_nat 6) as H1 by (simpl; lia).
  exact (conj H1 (no_socket_no_timeout 6 100 5 H1)).
Defined.

(** X22.  With a socket from the start: a connection seen within the
    first [conn_timeout] tests lets the constructor go on; a connection
    seen only at the test after the last sleep, when the countdown is at
    zero, is treated like none, and the constructor exits. *)
Theorem connection_must_beat_countdown n t b seen :
  0 ≤ t → Z.of_nat n < t →
  connect_loop (replicate n (Sock false) ++ Sock true :: seen) t
  = Proceeds (t - Z.of_nat n)
  ∧ connect_loop (replicate (Z.to_nat t) (Sock false) ++ Sock b :: seen) t = Exits.
Proof.
  intros Ht Hn. split.
  - rewrite connect_loop_unconnected by lia. simpl.
    destruct (Z.eqb_spec (t - Z.of_nat n) 0); [lia|done].
  - rewrite connect_loop_unconnected by lia. rewrite Z2Nat.id by done.
    replace (t - t) with 0 by lia. simpl. by destruct b.
Qed.

Lemma connection_must_beat_countdown_witness :
  0 ≤ 5 ∧ Z.of_nat 4 < 5
  ∧ connect_loop (replicate 4 (Sock false) ++ Sock true :: []) 5
    = Proceeds (5 - Z.of_nat 4)
  ∧ connect_loop (replicate (Z.to_nat 5) (Sock false) ++ Sock true :: []) 5 = Exits.
Proof.
  assert (0 ≤ 5) as H1 by lia.
  assert (Z.of_nat 4 < 5) as H2 by (simpl; lia).
  exact (conj H1 (conj H2 (connection_must_beat_countdown 4 5 true [] H1 H2))).
Defined.

(** The wait as [__connect] starts it, on a socket that connects at the
    sixth test and on one that connects at the fifth. *)
Example connect_wait_example :
  connect_wait (replicate 5 (Sock false) ++ [Sock true]) = Exits
  ∧ connect_wait (replicate 4 (Sock false) ++ [Sock true]) = Proceeds 1
  ∧ connect_wait [Sock true] = Proceeds 5.
Proof. by repeat split. Qed.

(** ** Rows that are told apart by the key set *)

Lemma py_eq_sym a b : py_eq a b = py_eq b a.
Proof.
  unfold py_eq. destruct (num_of a) as [x|] eqn:Ha, (num_of b) as [y|] eqn:Hb.
  - apply Qeq_bool_comm.
  - destruct a, b; simpl in *; done.
  - destruct a, b; simpl in *; done.
  - destruct a, b; simpl in *; try done.
    apply eq_true_iff_eq. rewrite !bool_decide_eq_true. naive_solver.
Qed.

Lemma py_eq_cong a b c : py_eq a b = true → py_eq c a = py_eq c b.
Proof.
  intros Hab. apply eq_true_iff_eq. split; intros H.
  - by eapply py_eq_trans.
  - eapply py_eq_trans; [done|]. by rewrite py_eq_sym.
Qed.

Lemma agree_sym r d k : agree r d k = agree d r k.
Proof. unfold agree. destruct (r !! k), (d !! k); try done. apply py_eq_sym. Qed.

Lemma matchesb_sym ks r d : matchesb ks r d = matchesb ks d r.
Proof.
  unfold matchesb. induction ks as [|k ks IH]; simpl; [done|].
  by rewrite IH, agree_sym.
Qed.

(** A row that agrees with [d] on the key fields, merged with [d], is
    matched by the same rows as before. *)
Lemma matchesb_merged_r ks item d r :
  matchesb ks item d = true → matchesb ks r (d ∪ item) = matchesb ks r item.
Proof.
  unfold matchesb. induction ks as [|k ks IH]; simpl; [done|].
  intros [Hk Hks]%andb_true_iff. rewrite IH by done. f_equal.
  unfold agree in *. destruct (item !! k) as [a|] eqn:Ha; [|done].
  destruct (d !! k) as [b|] eqn:Hb; [|done].
  rewrite (lookup_union_Some_l d item k b) by done.
  destruct (r !! k) as [c|]; [|done].
  symmetry. by apply py_eq_cong.
Qed.

Lemma matchesb_merged_l ks item d r :
  matchesb ks item d = true → matchesb ks (d ∪ item) r = matchesb ks item r.
Proof.
  intros H. by rewrite matchesb_sym, matchesb_merged_r, matchesb_sym.
Qed.

(** Two rows that both agree with [d] agree with each other. *)
Lemma matchesb_join ks r r' d :
  matchesb ks r d = true → matchesb ks r' d = true → matchesb ks r r' = true.
Proof.
  unfold matchesb. induction ks as [|k ks IH]; simpl; [done|].
  intros [Hk Hks]%andb_true_iff [Hk' Hks']%andb_true_iff.
  rewrite IH by done. rewrite andb_true_r.
  unfold agree in *. destruct (r !! k) as [a|]; [|done].
  destruct (r' !! k) as [a'|]; [|done]. destruct (d !! k) as [b|]; [|done].
  eapply py_eq_trans; [done|]. by rewrite py_eq_sym.
Qed.

Lemma distinct_rows_insert ks (tbl : list row) i item m :
  tbl !! i = Some item →
  (∀ r, matchesb ks r m = matchesb ks r item) →
  (∀ r, matchesb ks m r = matchesb ks item r) →
  distinct_rows ks tbl → distinct_rows ks (<[i := m]> tbl).
Proof.
  intros Hi Hr Hl Hd a b r r' Hab Ha Hb.
  apply list_lookup_insert_Some in Ha as [(-> & <- & _)|[Hai Ha]];
  apply list_lookup_insert_Some in Hb as [(-> & <- & _)|[Hbi Hb]]; try done.
  - rewrite Hl. by eapply (Hd a b).
  - rewrite Hr. by eapply (Hd a b).
  - by eapply (Hd a b).
Qed.

Lemma distinct_rows_delete ks (tbl : list row) i :
  distinct_rows ks tbl → distinct_rows ks (delete i tbl).
Proof.
  intros Hd a b r r' Hab Ha Hb. rewrite list_lookup_delete in Ha, Hb.
  eapply Hd; [|done..]. repeat case_decide; lia.
Qed.

Lemma distinct_rows_merged ks T (tbl : list row) i item d :
  tbl !! i = Some item → matchesb ks item d = true →
  distinct_rows ks tbl → distinct_rows ks (merged_table T tbl i item d).
Proof.
  intros Hi Hm Hd. unfold merged_table. destruct (evicts _ _).
  - by apply distinct_rows_delete.
  - eapply distinct_rows_insert; [done| | |done]; intros r.
    + by apply matchesb_merged_r.
    + by apply matchesb_merged_l.
Qed.

Lemma update_loop_distinct T ks rows st :
  keys st !! T = Some ks → distinct_rows ks (rows_of st T) →
  distinct_rows ks (rows_of (fst (update_loop T rows st)) T).
Proof.
  revert st. induction rows as [|d rows IH]; intros st Hk Hd; [done|].
  rewrite update_loop_cons, Hk.
  destruct (data st !! T) as [tbl|] eqn:Ht; [|done].
  assert (rows_of st T = tbl) as Hr by (unfold rows_of; by rewrite Ht).
  rewrite Hr in Hd.
  destruct (findItemByKeys ks tbl d) as [[[i item]|]|e] eqn:Hf;
    cbn [fst]; rewrite ?Hr; try done.
  case_bool_decide; cbn [fst]; rewrite ?Hr; [done|].
  destruct (merge_item_found ks T tbl i item d st Hf) as [r ->].
  apply find_from_some in Hf as (n & Hn & Hi & Hm & _). simpl in Hn. subst n.
  assert (distinct_rows ks (merged_table T tbl i item d)) as Hd'
    by (by apply distinct_rows_merged).
  destruct r; cbn [fst]; [|by rewrite rows_of_with_rows].
  apply IH; [done|by rewrite rows_of_with_rows].
Qed.

Lemma delete_loop_distinct T ks rows st :
  keys st !! T = Some ks → distinct_rows ks (rows_of st T) →
  distinct_rows ks (rows_of (fst (delete_loop T rows st)) T).
Proof.
  revert st. induction rows as [|d rows IH]; intros st Hk Hd; [done|].
  rewrite delete_loop_cons, Hk.
  destruct (data st !! T) as [tbl|] eqn:Ht; [|done].
  assert (rows_of st T = tbl) as Hr by (unfold rows_of; by rewrite Ht).
  rewrite Hr in Hd.
  destruct (findItemByKeys ks tbl d) as [[[i item]|]|e] eqn:Hf;
    cbn [fst]; rewrite ?Hr; try done.
  destruct (list_remove item tbl) as [tbl'|] eqn:Hrm; cbn [fst]; rewrite ?Hr; [|done].
  apply list_remove_in in Hrm as (j & _ & ->).
  apply IH; [done|]. rewrite rows_of_with_rows. by apply distinct_rows_delete.
Qed.

(** X23.  When no two rows of a table agree on every field of its key
    set, this is still so after any [update] and after any [delete]
    message for the table; and in such a table a datum is matched by at
    most one row, so the row that [findItemByKeys] returns is the only
    one it could address. *)
Theorem update_and_delete_keep_rows_distinct c T ks rows kz :
  keys (c_store c) !! T = Some ks →
  distinct_rows ks (rows_of (c_store c) T) →
  distinct_rows ks (rows_of (c_store (on_message c (event T "update" rows kz))) T)
  ∧ distinct_rows ks (rows_of (c_store (on_message c (event T "delete" rows kz))) T)
  ∧ (∀ d i j r r',
       rows_of (c_store c) T !! i = Some r → rows_of (c_store c) T !! j = Some r' →
       matchesb ks r d = true → matchesb ks r' d = true → i = j).
Proof.
  intros Hk Hd. rewrite on_message_update_store, on_message_delete_store.
  rewrite <- (ensured_keys T) in Hk.
  pose proof Hd as Hd'. rewrite <- (rows_of_ensured (c_store c) T) in Hd'.
  split; [by apply update_loop_distinct|]. split; [by apply delete_loop_distinct|].
  intros d i j r r' Hi Hj Hm Hm'.
  destruct (decide (i = j)) as [|Hne]; [done|].
  specialize (Hd i j r r' Hne Hi Hj).
  by rewrite (matchesb_join ks r r' d) in Hd.
Qed.

Lemma update_and_delete_keep_rows_distinct_witness :
  let ks := ["symbol"; "level"] in
  keys (c_store book_client) !! book = Some ks
  ∧ distinct_rows ks (rows_of (c_store book_client) book)
  ∧ distinct_rows ks
      (rows_of (c_store (on_message book_client (event book "update" [row_X1; row_X2] None)))
         book)
  ∧ distinct_rows ks
      (rows_of (c_store (on_message book_client (event book "delete" [row_X1; row_X2] None)))
         book)
  ∧ (∀ d i j r r',
       rows_of (c_store book_client) book !! i = Some r →
       rows_of (c_store book_client) book !! j = Some r' →
       matchesb ks r d = true → matchesb ks r' d = true → i = j).
Proof.
  intros ks.
  assert (keys (c_store book_client) !! book = Some ks) as H1
    by (vm_compute; reflexivity).
  assert (distinct_rows ks (rows_of (c_store book_client) book)) as H2.
  { intros i j r r' Hij Hi Hj.
    change (rows_of (c_store book_client) book) with [level_X1; level_X2; level_Y1] in *.
    destruct i as [|[|[|i]]], j as [|[|[|j]]]; simpl in Hi, Hj;
      try discriminate; try congruence;
      injection Hi as <-; injection Hj as <-; vm_compute; reflexivity. }
  exact (conj H1 (conj H2
    (update_and_delete_keep_rows_distinct book_client book ks [row_X1; row_X2] None H1 H2))).
Defined.

(** An [insert] can break it: nothing is compared on insertion. *)
Example insert_can_duplicate :
  let tbl := rows_of (c_store (on_message book_client (event book "insert" [row_X1] None)))
               book in
  tbl = [level_X1; level_X2; level_Y1; row_X1]
  ∧ matchesb ["symbol"; "level"] level_X1 row_X1 = true.
Proof. split; by vm_compute. Qed.

(** ** How far rounding moves a ticker field *)

Lemma round_half_even_spec x :
  (inject_Z (round_half_even x) - (1 # 2) <= x
   ∧ x <= inject_Z (round_half_even x) + (1 # 2))%Q.
Proof.
  unfold round_half_even.
  pose proof (Qfloor_le x) as Hlo. pose proof (Qlt_floor x) as Hhi.
  rewrite inject_Z_plus in Hhi.
  change (inject_Z 1) with 1%Q in Hhi.
  set (f := Qfloor x) in *.
  assert (inject_Z (f + 1) == inject_Z f + 1)%Q as E by (by rewrite inject_Z_plus).
  destruct (Qcompare_spec (x - inject_Z f) (1 # 2)) as [H|H|H].
  - destruct (Z.even f); [|rewrite E]; split; lra.
  - split; lra.
  - rewrite E. split; lra.
Qed.

Lemma Qred_whole k : Qred (k # 1) = inject_Z k.
Proof.
  unfold Qred, inject_Z.
  pose proof (Z.ggcd_gcd k 1) as Hg.
  pose proof (Z.ggcd_correct_divisors k 1) as Hd.
  destruct (Z.ggcd k 1) as [g [aa bb]]. simpl in *.
  rewrite Z.gcd_1_r in Hg. subst g. destruct Hd as [Ha Hb].
  assert (aa = k) as -> by lia. assert (bb = 1) as -> by lia. done.
Qed.

Lemma round_digits_0 x : round_digits x 0 = inject_Z (round_half_even (x * 1)).
Proof. unfold round_digits. simpl. apply Qred_whole. Qed.

(** X24.  With a [tickLog] of 0, a float field of the ticker is rounded
    to a whole number [k] that is within one half of the unrounded
    value. *)
Theorem round_field_within_half_unit float_of_str (ins : row) x :
  ins !! "tickLog" = Some (VInt 0) →
  ∃ k,
    round_field float_of_str ins (VFloat x) = Ok (VFloat (inject_Z k))
    ∧ (inject_Z k - (1 # 2) <= x)%Q
    ∧ (x <= inject_Z k + (1 # 2))%Q.
Proof.
  intros Hl. unfold round_field, getitem, or0. simpl.
  destruct (Qeq_bool x 0) eqn:Hx; simpl; rewrite Hl; simpl; rewrite round_digits_0.
  - apply Qeq_bool_iff in Hx. eexists. split; [done|].
    pose proof (round_half_even_spec (inject_Z 0 * 1)) as [H1 H2].
    change (inject_Z 0) with 0%Q in *. split; lra.
  - eexists. split; [done|].
    pose proof (round_half_even_spec (x * 1)) as [H1 H2]. split; lra.
Qed.

Lemma round_field_within_half_unit_witness :
  let ins : row := <["tickLog" := VInt 0]> instrument_half in
  ins !! "tickLog" = Some (VInt 0)
  ∧ ∃ k,
      round_field float_of_str0 ins (VFloat 100.37) = Ok (VFloat (inject_Z k))
      ∧ (inject_Z k - (1 # 2) <= 100.37)%Q
      ∧ (100.37 <= inject_Z k + (1 # 2))%Q.
Proof.
  intros ins.
  assert (ins !! "tickLog" = Some (VInt 0)) as H1 by (vm_compute; reflexivity).
  exact (conj H1 (round_field_within_half_unit float_of_str0 ins 100.37%Q H1)).
Defined.

Lemma other_tables_untouched_witness :
  let m := event book "delete" [row_X1; row_Z9] None in
  orders ≠ m_table m
  ∧ data (c_store (on_message book_client m)) !! orders
    = data (c_store book_client) !! orders
  ∧ keys (c_store (on_message book_client m)) !! orders
    = keys (c_store book_client) !! orders.
Proof.
  intros m.
  assert (orders ≠ m_table m) as H1
    by (apply (bool_decide_unpack _); vm_compute; exact I).
  exact (conj H1 (other_tables_untouched book_client m orders H1)).
Defined.

Lemma action_creates_table_witness :
  let m := event (Some "position") "replace" [] None in
  m_subscribe m = None ∧ m_action m = Some "replace" ∧ "replace" ≠ ""
  ∧ is_Some (data (c_store (on_message fresh_client m)) !! m_table m).
Proof.
  intros m.
  assert (m_subscribe m = None) as H1 by reflexivity.
  assert (m_action m = Some "replace") as H2 by reflexivity.
  assert ("replace" ≠ "") as H3 by (apply (bool_decide_unpack _); vm_compute; exact I).
  exact (conj H1 (conj H2 (conj H3 (action_creates_table fresh_client m "replace" H1 H2 H3)))).
Defined.
